(** * Bitswap core: wantlist, message queue and network adapter

    A shallow embedding of the JavaScript/TypeScript sources

      - [src/types/wantlist/entry.js]   (class [WantListEntry])
      - [src/wantlist/index.js]         (class [Wantlist])
      - [src/want-manager/msg-queue.ts] (class [MsgQueue])
      - [src/network.ts]                (class [Network])

    Objects become records, mutation becomes explicit state passing, and the
    calls a method makes on its collaborators are recorded in a trace of
    events.  A JS [Map] is kept in insertion order, as the language defines
    it, because [Wantlist.sortedEntries] starts from that order. *)

From Stdlib Require Import ZArith NArith List String Ascii Bool Lia.
From Stdlib Require Import Permutation Sorted DecimalString OrderedTypeEx.
From Stdlib.Strings Require Byte.
Import ListNotations.

Local Open Scope Z_scope.

(* ================================================================== *)
(** * Part I: definitions                                              *)
(* ================================================================== *)

(** ** JavaScript [Map] with string keys

    A [Map] iterates in insertion order; [set] on a key that is present
    keeps the key's position, [set] on a new key appends, [delete] removes
    the key.  [modify] stands for a mutation of the object stored under a
    key: the object is shared with the map, so the map sees the change and
    the key keeps its place. *)
Module JsMap.

Definition Map (V : Type) : Type := list (string * V).

Definition empty {V} : Map V := [].

Fixpoint get {V} (k : string) (m : Map V) : option V :=
  match m with
  | [] => None
  | (k', v) :: rest => if String.eqb k k' then Some v else get k rest
  end.

Definition has {V} (k : string) (m : Map V) : bool :=
  match get k m with Some _ => true | None => false end.

Fixpoint set {V} (k : string) (v : V) (m : Map V) : Map V :=
  match m with
  | [] => [(k, v)]
  | (k', v') :: rest =>
      if String.eqb k k' then (k', v) :: rest else (k', v') :: set k v rest
  end.

Fixpoint delete {V} (k : string) (m : Map V) : Map V :=
  match m with
  | [] => []
  | (k', v') :: rest =>
      if String.eqb k k' then delete k rest else (k', v') :: delete k rest
  end.

Fixpoint modify {V} (k : string) (f : V -> V) (m : Map V) : Map V :=
  match m with
  | [] => []
  | (k', v') :: rest =>
      if String.eqb k k' then (k', f v') :: rest
      else (k', v') :: modify k f rest
  end.

Definition size {V} (m : Map V) : Z := Z.of_nat (List.length m).

Definition entries {V} (m : Map V) : list (string * V) := m.

Definition keys {V} (m : Map V) : list string := List.map fst m.

(** [new Map(iterable)]: the pairs are [set] one after the other. *)
Definition from_entries {V} (l : list (string * V)) : Map V :=
  fold_left (fun m kv => set (fst kv) (snd kv) m) l empty.

End JsMap.

(** ** Content identifiers (the [cids] collaborator)

    The wantlist only turns a CID into its string key.  A CID is a version,
    a codec and a multihash; version 0 is the bare multihash, version 1
    prefixes the version and the codec as varints.  The string form is
    base58btc: a version 0 CID prints as the base58 of its multihash, a
    version 1 CID as the multibase letter [z] followed by the base58 of its
    bytes. *)
Module Cids.

Record CID : Type := mkCID {
  version : N;
  codec : N;
  multihash : list Byte.byte
}.

(** Unsigned LEB128, as the varint of the multiformats. *)
Fixpoint varint_fuel (fuel : nat) (n : N) : list Byte.byte :=
  match fuel with
  | O => []
  | S fuel' =>
      if (n <? 128)%N
      then [match Byte.of_N n with Some b => b | None => Byte.x00 end]
      else match Byte.of_N (128 + n mod 128)%N with
           | Some b => b
           | None => Byte.x00
           end :: varint_fuel fuel' (n / 128)%N
  end.

Definition varint (n : N) : list Byte.byte :=
  varint_fuel (S (N.to_nat (N.log2 n))) n.

(** The canonical bytes of a CID. *)
Definition bytes (c : CID) : list Byte.byte :=
  if (version c =? 0)%N then multihash c
  else (varint (version c) ++ varint (codec c) ++ multihash c)%list.

Definition base58_alphabet : string :=
  "123456789ABCDEFGHJKLMNPQRSTUVWXYZabcdefghijkmnopqrstuvwxyz".

Definition base58_char (d : N) : ascii :=
  match String.get (N.to_nat d) base58_alphabet with
  | Some c => c
  | None => "1"%char
  end.

Definition N_of_bytes (bs : list Byte.byte) : N :=
  fold_left (fun acc b => (acc * 256 + Byte.to_N b)%N) bs 0%N.

Fixpoint base58_digits (fuel : nat) (n : N) (acc : list ascii) : list ascii :=
  match fuel with
  | O => acc
  | S fuel' =>
      if (n =? 0)%N then acc
      else base58_digits fuel' (n / 58)%N (base58_char (n mod 58)%N :: acc)
  end.

Fixpoint leading_zeros (bs : list Byte.byte) : list ascii :=
  match bs with
  | Byte.x00 :: rest => "1"%char :: leading_zeros rest
  | _ => []
  end.

Definition base58btc (bs : list Byte.byte) : string :=
  string_of_list_ascii
    (leading_zeros bs ++
     base58_digits (2 * List.length bs) (N_of_bytes bs) [])%list.

(** [cid.toString('base58btc')] *)
Definition toString_base58btc (c : CID) : string :=
  if (version c =? 0)%N then base58btc (multihash c)
  else String "z"%char (base58btc (bytes c)).

(** [cid.toBaseEncodedString()], whose base defaults to base58btc. *)
Definition toBaseEncodedString (c : CID) : string := toString_base58btc c.

Fixpoint bytes_eqb (a b : list Byte.byte) : bool :=
  match a, b with
  | [], [] => true
  | x :: a', y :: b' => Byte.eqb x y && bytes_eqb a' b'
  | _, _ => false
  end.

(** [cid.equals(other)]: the same codec, version and multihash. *)
Definition equals (a b : CID) : bool :=
  (codec a =? codec b)%N && (version a =? version b)%N &&
  bytes_eqb (multihash a) (multihash b).

End Cids.

(** ** [WantListEntry]  (src/types/wantlist/entry.js) *)
Module WantListEntry.

Inductive WantType : Type := Block | Have.

(** [wantType] is [None] when the constructor is called without it (the
    argument is then [undefined]).  Numbers are integers here; the
    reference counter is a [Z] so that the [Math.max(0, _)] of [dec] is
    not hidden by the type. *)
Record t : Type := mk {
  _refCounter : Z;
  cid : Cids.CID;
  priority : Z;
  wantType : option WantType
}.

(** [priority || 1]: the number 0 is falsy. *)
Definition or_one (priority : Z) : Z :=
  if priority =? 0 then 1 else priority.

Definition constructor (cid : Cids.CID) (priority : Z)
           (wantType : option WantType) : t :=
  {| _refCounter := 1;
     cid := cid;
     priority := or_one priority;
     wantType := wantType |}.

Definition inc (e : t) : t :=
  {| _refCounter := _refCounter e + 1;
     cid := cid e; priority := priority e; wantType := wantType e |}.

Definition dec (e : t) : t :=
  {| _refCounter := Z.max 0 (_refCounter e - 1);
     cid := cid e; priority := priority e; wantType := wantType e |}.

Definition hasRefs (e : t) : bool := 0 <? _refCounter e.

(** The assignment [entry.priority = priority] made by [Wantlist.add]. *)
Definition set_priority (p : Z) (e : t) : t :=
  {| _refCounter := _refCounter e;
     cid := cid e; priority := p; wantType := wantType e |}.

(** How a number prints inside a template literal. *)
Definition number_toString (z : Z) : string :=
  NilZero.string_of_int (Z.to_int z).

(** [get [Symbol.toStringTag]] *)
Definition toStringTag (e : t) : string :=
  ("WantlistEntry <key: " ++ Cids.toString_base58btc (cid e)
     ++ ", priority: " ++ number_toString (priority e)
     ++ ", refs: " ++ number_toString (_refCounter e) ++ ">")%string.

(** The operations a caller may apply to an entry it holds. *)
Inductive op : Type := Inc | Dec.

Definition apply_op (e : t) (o : op) : t :=
  match o with Inc => inc e | Dec => dec e end.

Definition apply_ops (ops : list op) (e : t) : t :=
  fold_left apply_op ops e.

(** [===] on two want types, either of which may be [undefined]. *)
Definition wantType_eqb (a b : option WantType) : bool :=
  match a, b with
  | None, None => true
  | Some Block, Some Block => true
  | Some Have, Some Have => true
  | _, _ => false
  end.

Definition equals (this other : t) : bool :=
  (_refCounter this =? _refCounter other) &&
  Cids.equals (cid this) (cid other) &&
  (priority this =? priority other) &&
  wantType_eqb (wantType this) (wantType other).

End WantListEntry.

(** ** [Wantlist]  (src/wantlist/index.js)

    The file holds two revisions of the class.  They differ in how the key
    string is obtained ([key.toString()] in the first,
    [cid.toBaseEncodedString()] in the second) and in [contains], which
    returns the stored entry itself in the first and its truth value in the
    second.  The second revision is the one embedded; [contains_rev1] keeps
    the first revision's [contains]. *)
Module Wantlist.

Module Entry := WantListEntry.

Record t : Type := mk { set : JsMap.Map Entry.t }.

Definition constructor : t := {| set := JsMap.empty |}.

Definition length (wl : t) : Z := JsMap.size (set wl).

(** [new Entry(cid, priority)]: no want type is passed. *)
Definition add (wl : t) (cid : Cids.CID) (priority : Z) : t :=
  let cidStr := Cids.toBaseEncodedString cid in
  match JsMap.get cidStr (set wl) with
  | Some _ =>
      {| set := JsMap.modify cidStr
                  (fun entry => Entry.set_priority priority (Entry.inc entry))
                  (set wl) |}
  | None =>
      {| set := JsMap.set cidStr (Entry.constructor cid priority None)
                  (set wl) |}
  end.

Definition remove (wl : t) (cid : Cids.CID) : t :=
  let cidStr := Cids.toBaseEncodedString cid in
  match JsMap.get cidStr (set wl) with
  | None => wl
  | Some entry =>
      let wl' := {| set := JsMap.modify cidStr Entry.dec (set wl) |} in
      if Entry.hasRefs (Entry.dec entry) then wl'
      else {| set := JsMap.delete cidStr (set wl') |}
  end.

Definition removeForce (wl : t) (cidStr : string) : t :=
  if JsMap.has cidStr (set wl)
  then {| set := JsMap.delete cidStr (set wl) |}
  else wl.

Definition entries (wl : t) : list (string * Entry.t) :=
  JsMap.entries (set wl).

(** [!!this.set.get(cidStr)]: an entry object is truthy, [undefined] is
    falsy. *)
Definition contains (wl : t) (cid : Cids.CID) : bool :=
  let cidStr := Cids.toBaseEncodedString cid in
  match JsMap.get cidStr (set wl) with
  | Some _ => true
  | None => false
  end.

(** First revision: [return this.set.get(key.toString())], the entry or
    [undefined]. *)
Definition contains_rev1 (wl : t) (cid : Cids.CID) : option Entry.t :=
  JsMap.get (Cids.toBaseEncodedString cid) (set wl).

(** ** [sortedEntries]

    [Array.prototype.sort] without a comparator orders the elements by
    their string conversions, compared code unit by code unit, and is
    stable.  An element here is the pair [[key, entry]]; an array prints
    as its elements joined by a comma, and an object without a [toString]
    of its own prints as [[object <toStringTag>]]. *)
Definition object_toString (e : Entry.t) : string :=
  ("[object " ++ Entry.toStringTag e ++ "]")%string.

Definition pair_toString (kv : string * Entry.t) : string :=
  (fst kv ++ "," ++ object_toString (snd kv))%string.

Definition sort_le (a b : string * Entry.t) : bool :=
  String.leb (pair_toString a) (pair_toString b).

(** A stable sort: the elements are inserted from the last to the first,
    each in front of the first element it is not greater than, so that
    equal elements keep their order.  The result of a stable sort does not
    depend on the algorithm, so this stands for the engine's. *)
Fixpoint insert_sorted {A} (le : A -> A -> bool) (x : A) (l : list A) : list A :=
  match l with
  | [] => [x]
  | y :: rest =>
      if le x y then x :: y :: rest else y :: insert_sorted le x rest
  end.

Definition array_sort {A} (le : A -> A -> bool) (l : list A) : list A :=
  fold_right (insert_sorted le) [] l.

Definition sortedEntries (wl : t) : JsMap.Map Entry.t :=
  JsMap.from_entries (array_sort sort_le (JsMap.entries (set wl))).

End Wantlist.


(** ** [BitswapMessage]

    Modelled from the spec: the class [BitswapMessage] of
    [src/message/index.js] is not among the sources at hand.  The spec gives
    a message as [(full, wantlist, blocks, block_presences, pending_bytes)]
    with the operations [new(full)],
    [add_entry(cid, priority, want_type=Block, cancel=false)], [cancel(cid)],
    [add_block(cid, bytes)] and [empty()].  The wantlist of a message is a
    mapping from the CID's key to an entry [(cid, priority, want_type,
    cancel)]; [add_entry] stores the entry under the CID's key, replacing
    what was there, [cancel] stores a cancel entry (of priority 0) under
    it, and a message is empty when its three collections are. *)
Module BitswapMessage.

Record Entry : Type := mkEntry {
  cid : Cids.CID;
  priority : Z;
  wantType : WantListEntry.WantType;
  cancel : bool
}.

Inductive BlockPresence : Type := PresenceHave | PresenceDontHave.

Record t : Type := mk {
  full : bool;
  wantlist : JsMap.Map Entry;
  blocks : JsMap.Map (list Byte.byte);
  blockPresences : JsMap.Map BlockPresence;
  pendingBytes : Z
}.

Definition constructor (full : bool) : t :=
  {| full := full;
     wantlist := JsMap.empty;
     blocks := JsMap.empty;
     blockPresences := JsMap.empty;
     pendingBytes := 0 |}.

Definition with_wantlist (m : t) (w : JsMap.Map Entry) : t :=
  {| full := full m; wantlist := w; blocks := blocks m;
     blockPresences := blockPresences m; pendingBytes := pendingBytes m |}.

Definition addEntry_full (m : t) (c : Cids.CID) (priority : Z)
           (wantType : WantListEntry.WantType) (cancel : bool) : t :=
  with_wantlist m
    (JsMap.set (Cids.toString_base58btc c)
       (mkEntry c priority wantType cancel) (wantlist m)).

(** [msg.addEntry(cid, priority)], with the defaults of the other two
    arguments. *)
Definition addEntry (m : t) (c : Cids.CID) (priority : Z) : t :=
  addEntry_full m c priority WantListEntry.Block false.

(** [msg.cancel(cid)] *)
Definition cancelEntry (m : t) (c : Cids.CID) : t :=
  addEntry_full m c 0 WantListEntry.Block true.

Definition addBlock (m : t) (c : Cids.CID) (data : list Byte.byte) : t :=
  {| full := full m; wantlist := wantlist m;
     blocks := JsMap.set (Cids.toString_base58btc c) data (blocks m);
     blockPresences := blockPresences m; pendingBytes := pendingBytes m |}.

(** [msg.empty] *)
Definition empty (m : t) : bool :=
  (JsMap.size (blocks m) =? 0) &&
  (JsMap.size (wantlist m) =? 0) &&
  (JsMap.size (blockPresences m) =? 0).

End BitswapMessage.

(** ** Asynchronous computations

    An [async] function either resolves or rejects.  A method is a function
    from the state of its object to a result, the new state and the trace of
    the calls it made on its collaborators, in program order.  Suspension at
    [await] is not represented: a computation runs to its end, so the order
    of events of promises that are in flight at the same time is one of the
    possible ones. *)
Definition PeerId : Type := string.

Record Connection : Type := mkConnection { remotePeer : PeerId }.

Record Stream : Type := mkStream { stream_peer : PeerId; stat_protocol : string }.

Record PeerInfo : Type := mkPeerInfo { id : PeerId; multiaddrs : list string }.

Inductive Error : Type :=
| NetworkNotRunning                 (* the network is not running *)
| UnknownProtocol (protocol : string)
| External (message : string).      (* raised by a collaborator *)

Inductive WireFormat : Type := Bitswap100Format | Bitswap110Format.

Inductive Event : Type :=
| LogInfo (what : string)
| LogValue (err : Error)
| LogError (what : string) (err : Error)
| NetConnectTo (peer : PeerId)
| NetSendMessage (peer : PeerId) (msg : BitswapMessage.t)
| Libp2pHandle (protocols : list string) (maxInbound maxOutbound : Z)
| Libp2pUnhandle (protocols : list string)
| Libp2pRegister (protocol : string)
| Libp2pUnregister (registrarId : string)
| Libp2pDial (peer : PeerId)
| Libp2pFindProviders (cid : Cids.CID)
| ConnectionNewStream (peer : PeerId) (protocols : list string)
| StreamWrite (s : Stream) (format : WireFormat) (msg : BitswapMessage.t)
| StreamClose (s : Stream)
| StatsPush (peer : PeerId) (counter : string) (value : Z)
| BitswapPeerConnected (peer : PeerId).

Module Async.

Inductive Result (A : Type) : Type :=
| Resolved (a : A)
| Rejected (e : Error).
Arguments Resolved {A} a.
Arguments Rejected {A} e.

Definition t (S A : Type) : Type := S -> Result A * S * list Event.

Definition ret {S A} (a : A) : t S A := fun s => (Resolved a, s, []).

Definition throw {S A} (e : Error) : t S A := fun s => (Rejected e, s, []).

Definition bind {S A B} (m : t S A) (k : A -> t S B) : t S B :=
  fun s =>
    match m s with
    | (Resolved a, s1, tr1) =>
        match k a s1 with
        | (r, s2, tr2) => (r, s2, tr1 ++ tr2)
        end
    | (Rejected e, s1, tr1) => (Rejected e, s1, tr1)
    end.

Definition emit {S} (ev : Event) : t S unit := fun s => (Resolved tt, s, [ev]).

Definition get {S} : t S S := fun s => (Resolved s, s, []).

Definition put {S} (s : S) : t S unit := fun _ => (Resolved tt, s, []).

(** The outcome of a promise, as [try]/[catch] or [.catch] sees it. *)
Definition settle {S A} (m : t S A) : t S (Result A) :=
  fun s => match m s with (r, s1, tr) => (Resolved r, s1, tr) end.

(** The outcome of a collaborator's call. *)
Definition lift {S A} (r : Result A) : t S A := fun s => (r, s, []).

(** [void promise]: the computation runs, nobody looks at its outcome. *)
Definition detach {S A} (m : t S A) : t S unit :=
  fun s => match m s with (_, s1, tr) => (Resolved tt, s1, tr) end.

Fixpoint for_each {S A} (l : list A) (body : A -> t S unit) : t S unit :=
  match l with
  | [] => ret tt
  | x :: rest => bind (body x) (fun _ => for_each rest body)
  end.

(** [Promise.all]: rejects with the first rejection. *)
Fixpoint all {A} (promises : list (Result A)) : Result (list A) :=
  match promises with
  | [] => Resolved []
  | Resolved a :: rest =>
      match all rest with
      | Resolved l => Resolved (a :: l)
      | Rejected e => Rejected e
      end
  | Rejected e :: _ => Rejected e
  end.

Definition result {S A} (x : Result A * S * list Event) : Result A := fst (fst x).
Definition state {S A} (x : Result A * S * list Event) : S := snd (fst x).
Definition trace {S A} (x : Result A * S * list Event) : list Event := snd x.

End Async.

Notation "x <- m ;; k" := (Async.bind m (fun x => k))
  (at level 61, m at next level, right associativity).
Notation "m ;;; k" := (Async.bind m (fun _ => k))
  (at level 61, right associativity).

(** ** Constants

    Modelled from the spec: [src/constants.js] is not among the sources at
    hand; the spec gives [max_providers_per_request] the default 10. *)
Module CONSTANTS.

Definition maxProvidersPerRequest : Z := 10.

End CONSTANTS.

(** ** [Network]  (src/network.ts) *)
Module Network.

Definition BITSWAP100 : string := "/ipfs/bitswap/1.0.0".
Definition BITSWAP110 : string := "/ipfs/bitswap/1.1.0".
Definition BITSWAP120 : string := "/ipfs/bitswap/1.2.0".

Definition DEFAULT_MAX_INBOUND_STREAMS : Z := 32.
Definition DEFAULT_MAX_OUTBOUND_STREAMS : Z := 128.
Definition DEFAULT_INCOMING_STREAM_TIMEOUT : Z := 30000.

(** An optional field is [None] when it is left out.  The [hashLoader]
    serves the decoding of incoming messages only and is left out. *)
Record NetworkOptions : Type := mkOptions {
  b100Only : option bool;
  maxInboundStreams : option Z;
  maxOutboundStreams : option Z;
  incomingStreamTimeout : option Z
}.

(** [options = {}] *)
Definition no_options : NetworkOptions :=
  {| b100Only := None; maxInboundStreams := None;
     maxOutboundStreams := None; incomingStreamTimeout := None |}.

(** What the routing collaborator yields: the providers, then the end of
    the iteration or an error.  The loop of [findAndConnect] stops at its
    bound, so of a longer (or endless) stream only a finite prefix is ever
    read. *)
Record ProviderStream : Type := mkProviderStream {
  providers : list PeerInfo;
  failure : option Error
}.

(** The transport and routing collaborators: the outcome of each call the
    adapter makes on them. *)
Record Libp2p : Type := mkLibp2p {
  handle : list string -> Async.Result unit;
  unhandle : list string -> Async.Result unit;
  register : string -> Async.Result string;
  getConnections : list Connection;
  dial : PeerId -> Async.Result Connection;
  newStream : Connection -> list string -> Async.Result Stream;
  pipe : Stream -> Async.Result unit;
  contentRouting_findProviders : Cids.CID -> ProviderStream
}.

Record t : Type := mk {
  _libp2p : Libp2p;
  _protocols : list string;
  _has_stats : bool;
  _running : bool;
  _maxInboundStreams : Z;
  _maxOutboundStreams : Z;
  _incomingStreamTimeout : Z;
  _registrarIds : option (list string)
}.

Definition unshift {A} (x : A) (l : list A) : list A := x :: l.

(** [a ?? b] *)
Definition nullish {A} (a : option A) (b : A) : A :=
  match a with Some x => x | None => b end.

(** [options.b100Only !== true] *)
Definition not_true (o : option bool) : bool :=
  match o with Some true => false | _ => true end.

Definition constructor (libp2p : Libp2p) (has_stats : bool)
           (options : NetworkOptions) : t :=
  let protocols := [BITSWAP100] in
  let protocols :=
    if not_true (b100Only options)
    then unshift BITSWAP120 (unshift BITSWAP110 protocols)
    else protocols in
  {| _libp2p := libp2p;
     _protocols := protocols;
     _has_stats := has_stats;
     _running := false;
     _maxInboundStreams :=
       nullish (maxInboundStreams options) DEFAULT_MAX_INBOUND_STREAMS;
     _maxOutboundStreams :=
       nullish (maxOutboundStreams options) DEFAULT_MAX_OUTBOUND_STREAMS;
     _incomingStreamTimeout :=
       nullish (incomingStreamTimeout options) DEFAULT_INCOMING_STREAM_TIMEOUT;
     _registrarIds := None |}.

Definition set_running (b : bool) (n : t) : t :=
  {| _libp2p := _libp2p n; _protocols := _protocols n;
     _has_stats := _has_stats n; _running := b;
     _maxInboundStreams := _maxInboundStreams n;
     _maxOutboundStreams := _maxOutboundStreams n;
     _incomingStreamTimeout := _incomingStreamTimeout n;
     _registrarIds := _registrarIds n |}.

Definition set_registrarIds (ids : option (list string)) (n : t) : t :=
  {| _libp2p := _libp2p n; _protocols := _protocols n;
     _has_stats := _has_stats n; _running := _running n;
     _maxInboundStreams := _maxInboundStreams n;
     _maxOutboundStreams := _maxOutboundStreams n;
     _incomingStreamTimeout := _incomingStreamTimeout n;
     _registrarIds := ids |}.

Definition push_registrarId (i : string) (n : t) : t :=
  set_registrarIds
    (Some (match _registrarIds n with Some l => l ++ [i] | None => [i] end)%list)
    n.

Definition _onPeerConnect {S} (peerId : PeerId) : Async.t S unit :=
  Async.emit (BitswapPeerConnected peerId).

Definition start : Async.t t unit :=
  n <- Async.get ;;
  Async.put (set_running true n) ;;;
  Async.emit (Libp2pHandle (_protocols n)
                (_maxInboundStreams n) (_maxOutboundStreams n)) ;;;
  Async.lift (handle (_libp2p n) (_protocols n)) ;;;
  n1 <- Async.get ;;
  Async.put (set_registrarIds (Some []) n1) ;;;
  Async.for_each (_protocols n)
    (fun protocol =>
       Async.emit (Libp2pRegister protocol) ;;;
       i <- Async.lift (register (_libp2p n) protocol) ;;
       n2 <- Async.get ;;
       Async.put (push_registrarId i n2)) ;;;
  Async.for_each (getConnections (_libp2p n))
    (fun conn => _onPeerConnect (remotePeer conn)).

Definition stop : Async.t t unit :=
  n <- Async.get ;;
  Async.put (set_running false n) ;;;
  Async.emit (Libp2pUnhandle (_protocols n)) ;;;
  Async.lift (unhandle (_libp2p n) (_protocols n)) ;;;
  match _registrarIds n with
  | Some ids =>
      Async.for_each ids (fun i => Async.emit (Libp2pUnregister i)) ;;;
      n1 <- Async.get ;;
      Async.put (set_registrarIds (Some []) n1)
  | None => Async.ret tt
  end.

Definition findProviders (n : t) (cid : Cids.CID) : ProviderStream :=
  contentRouting_findProviders (_libp2p n) cid.

(** The methods below read the adapter and leave it as it is; they run in
    the state of whoever calls them. *)
Definition connectTo {S} (n : t) (peer : PeerId) : Async.t S Connection :=
  Async.emit (NetConnectTo peer) ;;;
  if negb (_running n) then Async.throw NetworkNotRunning
  else
    Async.emit (Libp2pDial peer) ;;;
    Async.lift (dial (_libp2p n) peer).

(** [for await (const provider of ...)] with its [break]: the iteration
    ends with the providers, and then fails if the routing did. *)
Fixpoint findAndConnect_loop {S} (maxProvidersPerRequest : Z) (n : t)
         (stream : list PeerInfo) (failure : option Error) (found : Z)
         (connectAttempts : list (Async.Result (option Connection)))
  : Async.t S (list (Async.Result (option Connection))) :=
  match stream with
  | [] =>
      match failure with
      | Some err => Async.throw err
      | None => Async.ret connectAttempts
      end
  | provider :: rest =>
      Async.emit (LogInfo "connecting to provider") ;;;
      outcome <- Async.settle (connectTo n (id provider)) ;;
      attempt <-
        match outcome with
        | Async.Resolved conn => Async.ret (Async.Resolved (Some conn))
        | Async.Rejected err =>
            (* Prevent unhandled promise rejection *)
            Async.emit (LogError "" err) ;;;
            Async.ret (Async.Resolved None)
        end ;;
      let connectAttempts := (connectAttempts ++ [attempt])%list in
      let found := found + 1 in
      if found =? maxProvidersPerRequest then Async.ret connectAttempts
      else findAndConnect_loop maxProvidersPerRequest n rest failure found
             connectAttempts
  end.

Definition findAndConnect_at {S} (maxProvidersPerRequest : Z) (n : t)
           (cid : Cids.CID) : Async.t S unit :=
  Async.emit (Libp2pFindProviders cid) ;;;
  connectAttempts <-
    findAndConnect_loop maxProvidersPerRequest n
      (providers (findProviders n cid)) (failure (findProviders n cid))
      0 [] ;;
  Async.lift (Async.all connectAttempts) ;;;
  Async.ret tt.

Definition findAndConnect {S} (n : t) (cid : Cids.CID) : Async.t S unit :=
  findAndConnect_at CONSTANTS.maxProvidersPerRequest n cid.

Definition _updateSentStats {S} (n : t) (peer : PeerId)
           (blocks : JsMap.Map (list Byte.byte)) : Async.t S unit :=
  if _has_stats n then
    Async.for_each blocks
      (fun block =>
         Async.emit (StatsPush peer "dataSent"
                       (Z.of_nat (List.length (snd block))))) ;;;
    Async.emit (StatsPush peer "blocksSent" (JsMap.size blocks))
  else Async.ret tt.

(** The serializers belong to the message class; what is kept of them is
    which one is chosen. *)
Definition writeMessage {S} (n : t) (stream : Stream)
           (msg : BitswapMessage.t) : Async.t S unit :=
  outcome <-
    Async.settle
      (format <-
         (if String.eqb (stat_protocol stream) BITSWAP100
          then Async.ret Bitswap100Format
          else if String.eqb (stat_protocol stream) BITSWAP110
                  || String.eqb (stat_protocol stream) BITSWAP120
          then Async.ret Bitswap110Format
          else Async.throw (UnknownProtocol (stat_protocol stream))) ;;
       Async.emit (StreamWrite stream format msg) ;;;
       Async.lift (pipe (_libp2p n) stream)) ;;
  match outcome with
  | Async.Resolved _ => Async.ret tt
  | Async.Rejected err => Async.emit (LogValue err)
  end ;;;
  Async.emit (StreamClose stream).

Definition sendMessage {S} (n : t) (peer : PeerId) (msg : BitswapMessage.t)
  : Async.t S unit :=
  Async.emit (NetSendMessage peer msg) ;;;
  if negb (_running n) then Async.throw NetworkNotRunning
  else
    Async.emit (LogInfo "sendMessage to") ;;;
    Async.emit (Libp2pDial peer) ;;;
    connection <- Async.lift (dial (_libp2p n) peer) ;;
    Async.emit (ConnectionNewStream (remotePeer connection)
                  [BITSWAP120; BITSWAP110; BITSWAP100]) ;;;
    stream <- Async.lift (newStream (_libp2p n) connection
                            [BITSWAP120; BITSWAP110; BITSWAP100]) ;;
    writeMessage n stream msg ;;;
    _updateSentStats n peer (BitswapMessage.blocks msg).

End Network.

(** ** [MsgQueue]  (src/want-manager/msg-queue.ts) *)
Module MsgQueue.

(** [{ cid, priority, cancel?: boolean }] *)
Record PendingEntry : Type := mkPending {
  cid : Cids.CID;
  priority : Z;
  cancel : option bool
}.

(** The queue holds a reference to the network adapter, which it only
    reads; the adapter is an argument of the methods.  [debounce_armed]
    is the timer of the debounced [sendEntries]. *)
Record t : Type := mk {
  peerId : PeerId;
  refcnt : Z;
  _entries : list PendingEntry;
  debounce_armed : bool
}.

Definition constructor (selfPeerId otherPeerId : PeerId) : t :=
  {| peerId := otherPeerId; refcnt := 1; _entries := [];
     debounce_armed := false |}.

Definition set_entries (l : list PendingEntry) (q : t) : t :=
  {| peerId := peerId q; refcnt := refcnt q; _entries := l;
     debounce_armed := debounce_armed q |}.

Definition set_armed (b : bool) (q : t) : t :=
  {| peerId := peerId q; refcnt := refcnt q; _entries := _entries q;
     debounce_armed := b |}.

(** [entry.cancel === true] *)
Definition is_true (o : option bool) : bool :=
  match o with Some true => true | _ => false end.

Definition send (network : Network.t) (msg : BitswapMessage.t)
  : Async.t t unit :=
  q <- Async.get ;;
  connected <- Async.settle (Network.connectTo network (peerId q)) ;;
  match connected with
  | Async.Rejected err =>
      Async.emit (LogError "cant connect to peer" err) ;;;
      Async.ret tt
  | Async.Resolved _ =>
      Async.emit (LogInfo "sending message to peer") ;;;
      (* Note: Don't wait for sendMessage() to complete *)
      sent <- Async.settle (Network.sendMessage network (peerId q) msg) ;;
      match sent with
      | Async.Rejected err => Async.emit (LogError "send error" err)
      | Async.Resolved _ => Async.ret tt
      end
  end.

Definition addMessage (network : Network.t) (msg : BitswapMessage.t)
  : Async.t t unit :=
  if BitswapMessage.empty msg then Async.ret tt
  else Async.detach (send network msg).

(** The body of the [forEach] in [sendEntries]. *)
Definition add_pending (msg : BitswapMessage.t) (entry : PendingEntry)
  : BitswapMessage.t :=
  if is_true (cancel entry) then BitswapMessage.cancelEntry msg (cid entry)
  else BitswapMessage.addEntry msg (cid entry) (priority entry).

(** The method [sendEntries], which the constructor wraps in [debounce]. *)
Definition sendEntries (network : Network.t) : Async.t t unit :=
  q <- Async.get ;;
  if (Z.of_nat (List.length (_entries q)) =? 0) then Async.ret tt
  else
    let msg :=
      fold_left add_pending (_entries q) (BitswapMessage.constructor false) in
    Async.put (set_entries [] q) ;;;
    addMessage network msg.

(** [this.sendEntries()] after the constructor: the call (re)arms the
    timer; when the timer fires the method runs. *)
Definition sendEntries_debounced : Async.t t unit :=
  q <- Async.get ;;
  Async.put (set_armed true q).

Definition debounce_fire (network : Network.t) : Async.t t unit :=
  q <- Async.get ;;
  if debounce_armed q then
    Async.put (set_armed false q) ;;;
    sendEntries network
  else Async.ret tt.

Definition addEntries (entries : list PendingEntry) : Async.t t unit :=
  q <- Async.get ;;
  Async.put (set_entries (_entries q ++ entries)%list q) ;;;
  sendEntries_debounced.

End MsgQueue.

(** ** Vocabulary for the properties of a wantlist *)
Module WantlistInv.

Module Entry := WantListEntry.

Fixpoint distinct (l : list string) : bool :=
  match l with
  | [] => true
  | k :: rest => negb (existsb (String.eqb k) rest) && distinct rest
  end.

(** An entry is stored under the string of its own CID. *)
Definition keyed_entry (kv : string * Entry.t) : bool :=
  String.eqb (fst kv) (Cids.toBaseEncodedString (Entry.cid (snd kv))).

(** What holds of the map of every wantlist: the keys are distinct, and
    each is the string of the CID of its entry. *)
Definition well_keyed (wl : Wantlist.t) : bool :=
  distinct (JsMap.keys (Wantlist.set wl)) &&
  forallb keyed_entry (Wantlist.entries wl).

(** Every entry held by the wantlist is referenced at least once. *)
Definition counted (wl : Wantlist.t) : bool :=
  forallb (fun kv => 1 <=? Entry._refCounter (snd kv)) (Wantlist.entries wl).

(** The same two properties, and the invariant they form, as
    propositions. *)
Definition keyedP (kv : string * Entry.t) : Prop :=
  fst kv = Cids.toBaseEncodedString (Entry.cid (snd kv)).

Definition countedP (kv : string * Entry.t) : Prop :=
  1 <= Entry._refCounter (snd kv).

Definition inv (wl : Wantlist.t) : Prop :=
  NoDup (JsMap.keys (Wantlist.set wl)) /\
  Forall keyedP (Wantlist.entries wl) /\
  Forall countedP (Wantlist.entries wl).

(** The calls on a wantlist. *)
Inductive call : Type :=
| Add (cid : Cids.CID) (priority : Z)
| Remove (cid : Cids.CID)
| RemoveForce (cidStr : string).

Definition run_call (wl : Wantlist.t) (c : call) : Wantlist.t :=
  match c with
  | Add cid priority => Wantlist.add wl cid priority
  | Remove cid => Wantlist.remove wl cid
  | RemoveForce cidStr => Wantlist.removeForce wl cidStr
  end.

Definition run (calls : list call) : Wantlist.t :=
  fold_left run_call calls Wantlist.constructor.

(** Two wantlists have the same contents when they hold the same entries
    under the same keys, in whatever order they were inserted. *)
Definition same_contents (wl1 wl2 : Wantlist.t) : Prop :=
  Permutation (Wantlist.entries wl1) (Wantlist.entries wl2).

(** Ascending order of the string keys. *)
Definition key_lt (a b : string * Entry.t) : Prop :=
  String.ltb (fst a) (fst b) = true.

(** Lexicographic order of byte sequences. *)
Fixpoint bytes_leb (a b : list Byte.byte) : bool :=
  match a, b with
  | [], _ => true
  | _ :: _, [] => false
  | x :: a', y :: b' =>
      if (Byte.to_N x <? Byte.to_N y)%N then true
      else if (Byte.to_N y <? Byte.to_N x)%N then false
      else bytes_leb a' b'
  end.

Definition cid_bytes_le (a b : string * Entry.t) : Prop :=
  bytes_leb (Cids.bytes (Entry.cid (snd a)))
            (Cids.bytes (Entry.cid (snd b))) = true.

(** The order the entries would have if they were sorted on the canonical
    bytes of their CIDs. *)
Definition byte_ordered (l : list (string * Entry.t)) : Prop :=
  StronglySorted cid_bytes_le l.

(** A string all of whose characters come after the comma. *)
Definition above_comma (s : string) : bool :=
  forallb (fun c => Ascii.ltb ","%char c) (list_ascii_of_string s).

End WantlistInv.

(** ** What a trace shows *)
Module Observe.

(** The calls of [network.sendMessage], with their arguments. *)
Definition sent_messages (tr : list Event) : list (PeerId * BitswapMessage.t) :=
  flat_map (fun ev => match ev with
                      | NetSendMessage p m => [(p, m)]
                      | _ => []
                      end) tr.

(** The calls of [network.connectTo]. *)
Definition connects (tr : list Event) : list PeerId :=
  flat_map (fun ev => match ev with
                      | NetConnectTo p => [p]
                      | _ => []
                      end) tr.

(** The protocol lists handed to [libp2p.handle], and the protocols handed
    to [libp2p.register]. *)
Definition handled (tr : list Event) : list (list string) :=
  flat_map (fun ev => match ev with
                      | Libp2pHandle ps _ _ => [ps]
                      | _ => []
                      end) tr.

Definition registered (tr : list Event) : list string :=
  flat_map (fun ev => match ev with
                      | Libp2pRegister p => [p]
                      | _ => []
                      end) tr.

(** An event that is no call of the network adapter. *)
Definition inner (ev : Event) : Prop :=
  match ev with
  | NetSendMessage _ _ | NetConnectTo _ => False
  | _ => True
  end.

(** A promise that resolves. *)
Definition settled {A} (r : Async.Result A) : Prop :=
  exists a, r = Async.Resolved a.

(** The key of a pending entry in a message, and the entry that a message
    carries for it: a cancel entry when the pending entry is flagged
    [cancel], a want entry with the pending entry's priority otherwise. *)
Definition pending_key (e : MsgQueue.PendingEntry) : string :=
  Cids.toString_base58btc (MsgQueue.cid e).

Definition carried (e : MsgQueue.PendingEntry) : BitswapMessage.Entry :=
  if MsgQueue.is_true (MsgQueue.cancel e)
  then BitswapMessage.mkEntry (MsgQueue.cid e) 0 WantListEntry.Block true
  else BitswapMessage.mkEntry (MsgQueue.cid e) (MsgQueue.priority e)
         WantListEntry.Block false.

(** The last pending entry for a key. *)
Fixpoint last_for (k : string) (pending : list MsgQueue.PendingEntry)
  : option MsgQueue.PendingEntry :=
  match pending with
  | [] => None
  | e :: rest =>
      match last_for k rest with
      | Some e' => Some e'
      | None => if String.eqb (pending_key e) k then Some e else None
      end
  end.

(** The message [sendEntries] builds from the pending entries. *)
Definition built (pending : list MsgQueue.PendingEntry) : BitswapMessage.t :=
  fold_left MsgQueue.add_pending pending (BitswapMessage.constructor false).

End Observe.

(** ** Sample values *)
Module Samples.

(** The sha2-256 multihash with an all-zero digest. *)
Definition zero_multihash : list Byte.byte :=
  Byte.x12 :: Byte.x20 :: List.repeat Byte.x00 32.

Definition one_multihash : list Byte.byte :=
  (Byte.x12 :: Byte.x20 :: List.repeat Byte.x00 31 ++ [Byte.x01])%list.

(** A version 0 CID (dag-pb) and a version 1 CID (raw, codec 0x55). *)
Definition cid_v0 : Cids.CID := Cids.mkCID 0 112 zero_multihash.
Definition cid_v0' : Cids.CID := Cids.mkCID 0 112 one_multihash.
Definition cid_v1 : Cids.CID := Cids.mkCID 1 85 zero_multihash.

(** Wantlists holding the two CIDs, built in either order. *)
Definition wl_v1_then_v0 : Wantlist.t :=
  WantlistInv.run [WantlistInv.Add cid_v1 1; WantlistInv.Add cid_v0 2].

Definition wl_v0_then_v1 : Wantlist.t :=
  WantlistInv.run [WantlistInv.Add cid_v0 2; WantlistInv.Add cid_v1 1].

Definition peerA : PeerId := "QmPeerA"%string.
Definition peerB : PeerId := "QmPeerB"%string.

(** A transport on which everything succeeds and the negotiated protocol
    is the first one offered; the routing knows the given providers. *)
Definition good_libp2p (found : list PeerInfo) : Network.Libp2p :=
  {| Network.handle := fun _ => Async.Resolved tt;
     Network.unhandle := fun _ => Async.Resolved tt;
     Network.register := fun protocol => Async.Resolved protocol;
     Network.getConnections := [];
     Network.dial := fun peer => Async.Resolved (mkConnection peer);
     Network.newStream := fun conn protocols =>
       Async.Resolved (mkStream (remotePeer conn) (List.hd EmptyString protocols));
     Network.pipe := fun _ => Async.Resolved tt;
     Network.contentRouting_findProviders := fun _ =>
       Network.mkProviderStream found None |}.

(** A transport that reaches nobody. *)
Definition dead_libp2p (found : list PeerInfo) : Network.Libp2p :=
  {| Network.handle := fun _ => Async.Resolved tt;
     Network.unhandle := fun _ => Async.Resolved tt;
     Network.register := fun protocol => Async.Resolved protocol;
     Network.getConnections := [];
     Network.dial := fun peer => Async.Rejected (External "dial failed");
     Network.newStream := fun conn protocols =>
       Async.Rejected (External "no stream");
     Network.pipe := fun _ => Async.Rejected (External "write failed");
     Network.contentRouting_findProviders := fun _ =>
       Network.mkProviderStream found None |}.

Definition started (libp2p : Network.Libp2p) : Network.t :=
  Network.set_running true
    (Network.constructor libp2p true Network.no_options).

Definition queueB : MsgQueue.t := MsgQueue.constructor peerA peerB.

Definition want_v0 : MsgQueue.PendingEntry := MsgQueue.mkPending cid_v0 5 None.
Definition cancel_v1 : MsgQueue.PendingEntry :=
  MsgQueue.mkPending cid_v1 1 (Some true).

Definition queueB_pending : MsgQueue.t :=
  MsgQueue.set_entries [want_v0; cancel_v1] queueB.

(** Wantlists in which the version 0 CID is wanted once, and twice. *)
Definition wl_once : Wantlist.t := WantlistInv.run [WantlistInv.Add cid_v0 1].
Definition wl_twice : Wantlist.t :=
  WantlistInv.run [WantlistInv.Add cid_v0 1; WantlistInv.Add cid_v0 3].

Definition twelve_providers : list PeerInfo :=
  List.map (fun i => mkPeerInfo (String (ascii_of_nat (65 + i)) EmptyString) [])
           (List.seq 0 12).

End Samples.

(** ** Repeated calls on a wantlist *)
Module WantlistRuns.

(** [n] calls of [add] and of [remove] for one CID. *)
Definition add_n (n : nat) (wl : Wantlist.t) (cid : Cids.CID) (priority : Z)
  : Wantlist.t :=
  Nat.iter n (fun w => Wantlist.add w cid priority) wl.

Definition remove_n (n : nat) (wl : Wantlist.t) (cid : Cids.CID) : Wantlist.t :=
  Nat.iter n (fun w => Wantlist.remove w cid) wl.

End WantlistRuns.

(** ** [Network._onConnection]  (src/network.ts)

    The handler of an incoming stream.  The stream yields length-prefixed
    frames and then ends, or fails (a framing error, or the abort raised
    by the idle timeout).  [Message.deserialize] and the two hooks of the
    coordinator, [_receiveMessage] and [_receiveError], are collaborators;
    the outcome of the first two is given.  The handler has its own trace,
    of the calls it makes on the stream, the timeout controller and the
    coordinator. *)
Module Inbound.

Inductive InEvent : Type :=
| InLog (protocol : string) (peer : PeerId)
| InLogValue (err : Error)
| ReceiveMessage (peer : PeerId) (msg : BitswapMessage.t)
| ReceiveError (err : Error)
| ControllerReset
| ControllerClear
| InStreamAbort (err : Error)
| InStreamClose.

Record Collaborators : Type := mkCollaborators {
  deserialize : list Byte.byte -> Async.Result BitswapMessage.t;
  _receiveMessage : PeerId -> BitswapMessage.t -> Async.Result unit
}.

Record IncomingStreamData : Type := mkIncoming {
  stream_protocol : string;
  connection : Connection;
  frames : list (list Byte.byte);
  source_failure : option Error
}.

(** The [for await] loop over the frames: the events, and the error that
    leaves the pipe if the source fails.  A frame that does not decode, or
    whose handling fails, is reported and ends the loop ([break]). *)
Fixpoint read_frames (c : Collaborators) (peer : PeerId)
         (source : list (list Byte.byte)) (failure : option Error)
  : list InEvent * option Error :=
  match source with
  | [] => ([], failure)
  | data :: rest =>
      match deserialize c data with
      | Async.Rejected err => ([ReceiveError err], None)
      | Async.Resolved message =>
          match _receiveMessage c peer message with
          | Async.Rejected err =>
              ([ReceiveMessage peer message; ReceiveError err], None)
          | Async.Resolved _ =>
              (* we have received some data so reset the timeout controller *)
              let (tr, thrown) := read_frames c peer rest failure in
              (ReceiveMessage peer message :: ControllerReset :: tr, thrown)
          end
      end
  end.

Definition _onConnection (n : Network.t) (c : Collaborators)
           (info : IncomingStreamData) : list InEvent :=
  if negb (Network._running n) then []
  else
    let peer := remotePeer (connection info) in
    let (tr, thrown) := read_frames c peer (frames info) (source_failure info) in
    (InLog (stream_protocol info) peer :: tr ++
     match thrown with
     | Some err => [InLogValue err; InStreamAbort err]
     | None => []
     end ++
     [ControllerClear; InStreamClose])%list.

(** What the trace of the handler shows. *)
Definition delivered (tr : list InEvent) : list (PeerId * BitswapMessage.t) :=
  flat_map (fun ev => match ev with
                      | ReceiveMessage p m => [(p, m)]
                      | _ => []
                      end) tr.

Definition reported (tr : list InEvent) : list Error :=
  flat_map (fun ev => match ev with ReceiveError e => [e] | _ => [] end) tr.

Definition resets (tr : list InEvent) : nat :=
  List.length (filter (fun ev => match ev with
                                 | ControllerReset => true
                                 | _ => false
                                 end) tr).

Definition aborts (tr : list InEvent) : list Error :=
  flat_map (fun ev => match ev with InStreamAbort e => [e] | _ => [] end) tr.

Definition closes (tr : list InEvent) : nat :=
  List.length (filter (fun ev => match ev with
                                 | InStreamClose => true
                                 | _ => false
                                 end) tr).

(** A frame that decodes and is handled without error. *)
Definition handled_ok (c : Collaborators) (peer : PeerId)
           (data : list Byte.byte) : bool :=
  match deserialize c data with
  | Async.Resolved message =>
      match _receiveMessage c peer message with
      | Async.Resolved _ => true
      | Async.Rejected _ => false
      end
  | Async.Rejected _ => false
  end.

(** The frames before the first one that is not handled, and that one. *)
Fixpoint good_prefix (c : Collaborators) (peer : PeerId)
         (source : list (list Byte.byte)) : list (list Byte.byte) :=
  match source with
  | [] => []
  | data :: rest =>
      if handled_ok c peer data then data :: good_prefix c peer rest else []
  end.

Fixpoint first_bad (c : Collaborators) (peer : PeerId)
         (source : list (list Byte.byte)) : option (list Byte.byte) :=
  match source with
  | [] => None
  | data :: rest =>
      if handled_ok c peer data then first_bad c peer rest else Some data
  end.

(** The messages of the frames that decode. *)
Definition decoded (c : Collaborators) (peer : PeerId)
           (source : list (list Byte.byte)) : list (PeerId * BitswapMessage.t) :=
  flat_map (fun data => match deserialize c data with
                        | Async.Resolved m => [(peer, m)]
                        | Async.Rejected _ => []
                        end) source.

(** The error reported for a frame that is not handled. *)
Definition error_of (c : Collaborators) (peer : PeerId)
           (data : list Byte.byte) : list Error :=
  match deserialize c data with
  | Async.Rejected err => [err]
  | Async.Resolved message =>
      match _receiveMessage c peer message with
      | Async.Rejected err => [err]
      | Async.Resolved _ => []
      end
  end.

End Inbound.

(** ** More of what a trace shows *)
Module ObserveMore.

(** The errors logged with [log.error], with their text. *)
Definition logged_errors (tr : list Event) : list (string * Error) :=
  flat_map (fun ev => match ev with
                      | LogError what e => [(what, e)]
                      | _ => []
                      end) tr.

(** The protocol lists offered to [connection.newStream]. *)
Definition offered (tr : list Event) : list (list string) :=
  flat_map (fun ev => match ev with
                      | ConnectionNewStream _ ps => [ps]
                      | _ => []
                      end) tr.

(** The dials, the frames written (with their format), the streams closed
    and the statistics pushed. *)
Definition dials (tr : list Event) : list PeerId :=
  flat_map (fun ev => match ev with Libp2pDial p => [p] | _ => [] end) tr.

Definition writes (tr : list Event) : list (Stream * WireFormat) :=
  flat_map (fun ev => match ev with
                      | StreamWrite s f _ => [(s, f)]
                      | _ => []
                      end) tr.

Definition closed (tr : list Event) : list Stream :=
  flat_map (fun ev => match ev with StreamClose s => [s] | _ => [] end) tr.

Definition stats (tr : list Event) : list (PeerId * string * Z) :=
  flat_map (fun ev => match ev with
                      | StatsPush p c v => [(p, c, v)]
                      | _ => []
                      end) tr.

Definition unhandled (tr : list Event) : list (list string) :=
  flat_map (fun ev => match ev with
                      | Libp2pUnhandle ps => [ps]
                      | _ => []
                      end) tr.

Definition unregistered (tr : list Event) : list string :=
  flat_map (fun ev => match ev with
                      | Libp2pUnregister i => [i]
                      | _ => []
                      end) tr.

(** The statistics [_updateSentStats] pushes for the blocks of a message. *)
Definition expected_stats (peer : PeerId) (blocks : JsMap.Map (list Byte.byte))
  : list (PeerId * string * Z) :=
  (List.map (fun block => (peer, "dataSent"%string,
                           Z.of_nat (List.length (snd block)))) blocks ++
   [(peer, "blocksSent"%string, JsMap.size blocks)])%list.

(** The registrar identifiers [register] gives for the protocols, when it
    gives one for each. *)
Fixpoint registrar_ids (libp2p : Network.Libp2p) (protocols : list string)
  : option (list string) :=
  match protocols with
  | [] => Some []
  | p :: rest =>
      match Network.register libp2p p, registrar_ids libp2p rest with
      | Async.Resolved i, Some ids => Some (i :: ids)
      | _, _ => None
      end
  end.

(** The peers handed to the coordinator's [_onPeerConnected]. *)
Definition peers_connected (tr : list Event) : list PeerId :=
  flat_map (fun ev => match ev with
                      | BitswapPeerConnected p => [p]
                      | _ => []
                      end) tr.

(** The adapter after [start] has pushed the identifiers one by one. *)
Definition push_all (ids : list string) (n : Network.t) : Network.t :=
  fold_left (fun m i => Network.push_registrarId i m) ids n.

End ObserveMore.

(** ** More sample values *)
Module MoreSamples.

Definition block_hello : list Byte.byte := list_byte_of_string "hello".
Definition block_world : list Byte.byte := list_byte_of_string "world!".

(** A message carrying two blocks. *)
Definition two_blocks : BitswapMessage.t :=
  BitswapMessage.addBlock
    (BitswapMessage.addBlock (BitswapMessage.constructor false)
       Samples.cid_v0 block_hello)
    Samples.cid_v1 block_world.

(** A transport on which the dial and the stream succeed, the stream
    negotiates the given protocol, and the write fails. *)
Definition write_fails (protocol : string) : Network.Libp2p :=
  {| Network.handle := fun _ => Async.Resolved tt;
     Network.unhandle := fun _ => Async.Resolved tt;
     Network.register := fun p => Async.Resolved p;
     Network.getConnections := [];
     Network.dial := fun peer => Async.Resolved (mkConnection peer);
     Network.newStream := fun conn _ =>
       Async.Resolved (mkStream (remotePeer conn) protocol);
     Network.pipe := fun _ => Async.Rejected (External "write failed");
     Network.contentRouting_findProviders := fun _ =>
       Network.mkProviderStream [] None |}.

(** A transport that refuses to handle the protocols. *)
Definition handle_fails : Network.Libp2p :=
  {| Network.handle := fun _ => Async.Rejected (External "cannot handle");
     Network.unhandle := fun _ => Async.Resolved tt;
     Network.register := fun p => Async.Resolved p;
     Network.getConnections := [];
     Network.dial := fun peer => Async.Resolved (mkConnection peer);
     Network.newStream := fun conn protocols =>
       Async.Resolved (mkStream (remotePeer conn) (List.hd EmptyString protocols));
     Network.pipe := fun _ => Async.Resolved tt;
     Network.contentRouting_findProviders := fun _ =>
       Network.mkProviderStream [] None |}.

(** A routing that yields the given providers and then fails. *)
Definition routing_fails (found : list PeerInfo) : Network.Libp2p :=
  {| Network.handle := fun _ => Async.Resolved tt;
     Network.unhandle := fun _ => Async.Resolved tt;
     Network.register := fun p => Async.Resolved p;
     Network.getConnections := [];
     Network.dial := fun peer => Async.Resolved (mkConnection peer);
     Network.newStream := fun conn protocols =>
       Async.Resolved (mkStream (remotePeer conn) (List.hd EmptyString protocols));
     Network.pipe := fun _ => Async.Resolved tt;
     Network.contentRouting_findProviders := fun _ =>
       Network.mkProviderStream found (Some (External "routing failed")) |}.

Definition legacy_only : Network.NetworkOptions :=
  {| Network.b100Only := Some true; Network.maxInboundStreams := None;
     Network.maxOutboundStreams := None; Network.incomingStreamTimeout := None |}.

(** Frames are one byte long here: [0x01] decodes to a message and is
    handled, [0x02] decodes to a message whose handling fails, any other
    frame does not decode. *)
Definition collaborators : Inbound.Collaborators :=
  {| Inbound.deserialize := fun data =>
       match data with
       | [Byte.x01] => Async.Resolved (BitswapMessage.constructor false)
       | [Byte.x02] => Async.Resolved (BitswapMessage.constructor true)
       | _ => Async.Rejected (External "malformed")
       end;
     Inbound._receiveMessage := fun _ msg =>
       if BitswapMessage.full msg then Async.Rejected (External "store failed")
       else Async.Resolved tt |}.

Definition incoming (source : list (list Byte.byte)) (failure : option Error)
  : Inbound.IncomingStreamData :=
  {| Inbound.stream_protocol := Network.BITSWAP120;
     Inbound.connection := mkConnection Samples.peerB;
     Inbound.frames := source;
     Inbound.source_failure := failure |}.

End MoreSamples.

(* ================================================================== *)
(** * Part II: properties                                              *)
(* ================================================================== *)

(** ** Lookups in a [Map] after an update *)
Module JsMapFacts.
Import JsMap.

Section Lookup.
Context {V : Type}.
Implicit Types (m : Map V) (k : string).

Lemma get_set_same k v m : get k (set k v m) = Some v.
Proof.
  induction m as [|[k' v'] rest IH]; simpl.
  - now rewrite String.eqb_refl.
  - destruct (String.eqb k k') eqn:E; simpl; rewrite E; auto.
Qed.

Lemma get_set_other k k' v m : k <> k' -> get k' (set k v m) = get k' m.
Proof.
  intros Hne. induction m as [|[k0 v0] rest IH]; simpl.
  - destruct (String.eqb_spec k' k); congruence.
  - destruct (String.eqb_spec k k0) as [->|]; simpl.
    + destruct (String.eqb_spec k' k0); congruence.
    + now rewrite IH.
Qed.

Lemma get_modify_same k f m :
  get k (modify k f m) = option_map f (get k m).
Proof.
  induction m as [|[k' v'] rest IH]; simpl; auto.
  destruct (String.eqb k k') eqn:E; simpl; rewrite E; auto.
Qed.

Lemma get_modify_other k k' f m :
  k <> k' -> get k' (modify k f m) = get k' m.
Proof.
  intros Hne. induction m as [|[k0 v0] rest IH]; simpl; auto.
  destruct (String.eqb_spec k k0) as [->|]; simpl.
  - destruct (String.eqb_spec k' k0); congruence.
  - now rewrite IH.
Qed.

Lemma get_delete_same k m : get k (delete k m) = None.
Proof.
  induction m as [|[k' v'] rest IH]; simpl; auto.
  destruct (String.eqb k k') eqn:E; simpl; try rewrite E; auto.
Qed.

Lemma get_delete_other k k' m :
  k <> k' -> get k' (delete k m) = get k' m.
Proof.
  intros Hne. induction m as [|[k0 v0] rest IH]; simpl; auto.
  destruct (String.eqb_spec k k0) as [->|]; simpl.
  - rewrite IH. destruct (String.eqb_spec k' k0); congruence.
  - now rewrite IH.
Qed.

Lemma get_None_not_key k m : get k m = None <-> ~ In k (keys m).
Proof.
  induction m as [|[k' v'] rest IH]; simpl.
  - tauto.
  - destruct (String.eqb_spec k k') as [->|Hne].
    + split; [discriminate | intros H; exfalso; apply H; now left].
    + rewrite IH. split.
      * intros H [Heq|Hin]; [congruence | auto].
      * intros H Hin. apply H. now right.
Qed.

Lemma get_Some_In k v m : get k m = Some v -> In (k, v) m.
Proof.
  induction m as [|[k' v'] rest IH]; simpl; [discriminate|].
  destruct (String.eqb_spec k k') as [->|Hne].
  - intros [= ->]. now left.
  - intros H. right. auto.
Qed.

Lemma keys_set_absent k v m :
  get k m = None -> set k v m = (m ++ [(k, v)])%list.
Proof.
  induction m as [|[k' v'] rest IH]; simpl; auto.
  destruct (String.eqb k k'); [discriminate|].
  intros H. now rewrite IH.
Qed.

Lemma keys_modify k f m : keys (modify k f m) = keys m.
Proof.
  induction m as [|[k' v'] rest IH]; simpl; auto.
  destruct (String.eqb k k'); simpl; [reflexivity | now rewrite IH].
Qed.

Lemma delete_filter k m :
  delete k m = filter (fun kv => negb (String.eqb k (fst kv))) m.
Proof.
  induction m as [|[k' v'] rest IH]; simpl; auto.
  destruct (String.eqb k k'); simpl; now rewrite IH.
Qed.

Lemma from_entries_acc (l acc : list (string * V)) :
  NoDup (List.map fst (acc ++ l)) ->
  fold_left (fun m kv => set (fst kv) (snd kv) m) l acc = (acc ++ l)%list.
Proof.
  revert acc. induction l as [|[k v] rest IH]; intros acc Hnd; simpl.
  - now rewrite app_nil_r.
  - assert (Hk : get k acc = None).
    { apply get_None_not_key. unfold keys.
      rewrite map_app in Hnd. simpl in Hnd.
      apply NoDup_remove_2 in Hnd. intros Hin. apply Hnd.
      apply in_or_app. now left. }
    rewrite (keys_set_absent _ _ _ Hk).
    rewrite IH; rewrite <- app_assoc; simpl; auto.
Qed.

Lemma from_entries_id (l : list (string * V)) :
  NoDup (List.map fst l) -> from_entries l = l.
Proof. intros H. unfold from_entries. now rewrite from_entries_acc. Qed.

End Lookup.

End JsMapFacts.

(** ** Reference counting of an entry *)
Module WantListEntryFacts.
Import WantListEntry.

Lemma constructor_refs c p w : _refCounter (constructor c p w) = 1.
Proof. reflexivity. Qed.

Lemma inc_refs e : _refCounter (inc e) = _refCounter e + 1.
Proof. reflexivity. Qed.

Lemma dec_refs e : _refCounter (dec e) = Z.max 0 (_refCounter e - 1).
Proof. reflexivity. Qed.

Lemma dec_nonneg e : 0 <= _refCounter (dec e).
Proof. rewrite dec_refs. lia. Qed.

Lemma apply_op_nonneg e o :
  0 <= _refCounter e -> 0 <= _refCounter (apply_op e o).
Proof. destruct o; simpl; lia. Qed.

Lemma apply_ops_nonneg ops : forall e,
  0 <= _refCounter e -> 0 <= _refCounter (apply_ops ops e).
Proof.
  unfold apply_ops.
  induction ops as [|o ops IH]; intros e He; simpl; auto.
  apply IH. now apply apply_op_nonneg.
Qed.

Lemma hasRefs_true e : hasRefs e = true <-> 0 < _refCounter e.
Proof. unfold hasRefs. apply Z.ltb_lt. Qed.

Lemma hasRefs_dec_false e :
  hasRefs (dec e) = false <-> _refCounter (dec e) = 0.
Proof.
  unfold hasRefs. rewrite Z.ltb_ge. pose proof (dec_nonneg e). lia.
Qed.

(** C7. The reference counter of an entry never becomes negative: an
    entry starts at 1 (the constructor) or at any non-negative count, and
    after every sequence of [inc] and [dec] its counter is >= 0; [dec] on
    a counter that is 0 leaves it at 0. *)
Theorem refCounter_never_negative (e : t) (ops : list op) :
  0 <= _refCounter e ->
  0 <= _refCounter (apply_ops ops e) /\
  (forall c p w, 0 <= _refCounter (apply_ops ops (constructor c p w))) /\
  (_refCounter (apply_ops ops e) = 0 ->
   _refCounter (dec (apply_ops ops e)) = 0).
Proof.
  intros He. split; [|split].
  - now apply apply_ops_nonneg.
  - intros c p w. apply apply_ops_nonneg. simpl. lia.
  - intros H0. rewrite dec_refs, H0. reflexivity.
Qed.

(** A fresh entry released twice, taken again and released: the counter
    goes 1, 0, 0, 1, 0, and one more [dec] leaves it at 0. *)
Lemma refCounter_never_negative_witness :
  0 <= _refCounter (constructor Samples.cid_v0 1 None) /\
  0 <= _refCounter (apply_ops [Dec; Dec; Inc; Dec]
                      (constructor Samples.cid_v0 1 None)) /\
  _refCounter (dec (apply_ops [Dec; Dec; Inc; Dec]
                      (constructor Samples.cid_v0 1 None))) = 0.
Proof.
  assert (H : 0 <= _refCounter (constructor Samples.cid_v0 1 None))
    by (intro Hgt; discriminate Hgt).
  split; [exact H|].
  destruct (refCounter_never_negative
              (constructor Samples.cid_v0 1 None) [Dec; Dec; Inc; Dec] H)
    as (H1 & _ & H3).
  split; [exact H1 | apply H3; reflexivity].
Defined.

End WantListEntryFacts.

(** ** The wantlist: [add], [remove], [contains] *)
Module WantlistFacts.
Import Wantlist WantlistInv JsMapFacts.

Lemma add_get_same wl cid priority :
  JsMap.get (Cids.toBaseEncodedString cid) (set (add wl cid priority)) =
  Some match JsMap.get (Cids.toBaseEncodedString cid) (set wl) with
       | Some e => Entry.set_priority priority (Entry.inc e)
       | None => Entry.constructor cid priority None
       end.
Proof.
  unfold add.
  destruct (JsMap.get (Cids.toBaseEncodedString cid) (set wl)) eqn:E; simpl.
  - now rewrite get_modify_same, E.
  - apply get_set_same.
Qed.

Lemma add_get_other wl cid priority k :
  k <> Cids.toBaseEncodedString cid ->
  JsMap.get k (set (add wl cid priority)) = JsMap.get k (set wl).
Proof.
  intros Hne. unfold add.
  destruct (JsMap.get (Cids.toBaseEncodedString cid) (set wl)); simpl.
  - apply get_modify_other. congruence.
  - apply get_set_other. congruence.
Qed.

Lemma remove_get_same wl cid e :
  JsMap.get (Cids.toBaseEncodedString cid) (set wl) = Some e ->
  JsMap.get (Cids.toBaseEncodedString cid) (set (remove wl cid)) =
  if Entry.hasRefs (Entry.dec e) then Some (Entry.dec e) else None.
Proof.
  intros E. unfold remove. rewrite E.
  destruct (Entry.hasRefs (Entry.dec e)); simpl.
  - now rewrite get_modify_same, E.
  - apply get_delete_same.
Qed.

Lemma remove_get_other wl cid k :
  k <> Cids.toBaseEncodedString cid ->
  JsMap.get k (set (remove wl cid)) = JsMap.get k (set wl).
Proof.
  intros Hne. unfold remove.
  destruct (JsMap.get (Cids.toBaseEncodedString cid) (set wl)) as [e|]; auto.
  destruct (Entry.hasRefs (Entry.dec e)); simpl.
  - apply get_modify_other. congruence.
  - rewrite get_delete_other by congruence.
    apply get_modify_other. congruence.
Qed.

Lemma remove_absent wl cid :
  JsMap.get (Cids.toBaseEncodedString cid) (set wl) = None ->
  remove wl cid = wl.
Proof. intros E. unfold remove. now rewrite E. Qed.

(** C5. [add] on a CID that has an entry increments the counter of that
    entry (and gives it the new priority); on a CID that has none it
    inserts a fresh entry for the CID, whose counter is 1.  The entries of
    the other CIDs are left as they are. *)
Theorem add_increments_or_inserts (wl : t) (cid : Cids.CID) (priority : Z) :
  let cidStr := Cids.toBaseEncodedString cid in
  match JsMap.get cidStr (set wl) with
  | Some e =>
      exists e',
        JsMap.get cidStr (set (add wl cid priority)) = Some e' /\
        e' = Entry.set_priority priority (Entry.inc e) /\
        Entry._refCounter e' = Entry._refCounter e + 1 /\
        Entry.cid e' = Entry.cid e
  | None =>
      exists e',
        JsMap.get cidStr (set (add wl cid priority)) = Some e' /\
        e' = Entry.constructor cid priority None /\
        Entry._refCounter e' = 1 /\
        Entry.cid e' = cid
  end /\
  (forall k, k <> cidStr ->
     JsMap.get k (set (add wl cid priority)) = JsMap.get k (set wl)).
Proof.
  intros cidStr. split.
  - pose proof (add_get_same wl cid priority) as H. fold cidStr in H.
    destruct (JsMap.get cidStr (set wl)) as [e|];
      eexists; (split; [exact H|]); repeat split.
  - intros k Hk. now apply add_get_other.
Qed.

(** A second [add] of a CID wanted once makes its counter 2; the first
    [add] of another CID inserts it with counter 1. *)
Lemma add_increments_or_inserts_witness :
  (exists e',
     JsMap.get (Cids.toBaseEncodedString Samples.cid_v0)
       (set (add Samples.wl_once Samples.cid_v0 7)) = Some e' /\
     Entry._refCounter e' = 2) /\
  (exists e',
     JsMap.get (Cids.toBaseEncodedString Samples.cid_v1)
       (set (add Samples.wl_once Samples.cid_v1 7)) = Some e' /\
     Entry._refCounter e' = 1) /\
  JsMap.get (Cids.toBaseEncodedString Samples.cid_v0)
    (set (add Samples.wl_once Samples.cid_v1 7)) =
  JsMap.get (Cids.toBaseEncodedString Samples.cid_v0) (set Samples.wl_once).
Proof.
  split; [|split].
  - destruct (add_increments_or_inserts Samples.wl_once Samples.cid_v0 7)
      as [H _].
    vm_compute in H. destruct H as (e' & H1 & _ & H3 & _).
    exists e'. split; [exact H1 | exact H3].
  - destruct (add_increments_or_inserts Samples.wl_once Samples.cid_v1 7)
      as [H _].
    vm_compute in H. destruct H as (e' & H1 & _ & H3 & _).
    exists e'. split; [exact H1 | exact H3].
  - destruct (add_increments_or_inserts Samples.wl_once Samples.cid_v1 7)
      as [_ H].
    apply H. intro Heq. vm_compute in Heq. discriminate Heq.
Defined.

(** C6. [remove] on a CID that has an entry decrements the counter of the
    entry ([dec]: one less, and never below 0), and the entry is deleted
    from the wantlist exactly when the decremented counter is 0; while the
    counter is still positive the entry stays, with the decremented
    counter.  The entries of the other CIDs are left as they are. *)
Theorem remove_decrements_and_deletes_at_zero
        (wl : t) (cid : Cids.CID) (e : Entry.t) :
  JsMap.get (Cids.toBaseEncodedString cid) (set wl) = Some e ->
  let cidStr := Cids.toBaseEncodedString cid in
  let e' := Entry.dec e in
  Entry._refCounter e' = Z.max 0 (Entry._refCounter e - 1) /\
  (1 <= Entry._refCounter e ->
   Entry._refCounter e' = Entry._refCounter e - 1) /\
  (JsMap.get cidStr (set (remove wl cid)) = None <->
   Entry._refCounter e' = 0) /\
  (0 < Entry._refCounter e' ->
   JsMap.get cidStr (set (remove wl cid)) = Some e') /\
  (forall k, k <> cidStr ->
     JsMap.get k (set (remove wl cid)) = JsMap.get k (set wl)).
Proof.
  intros E cidStr e'.
  pose proof (remove_get_same wl cid e E) as H. fold cidStr e' in H.
  pose proof (WantListEntryFacts.dec_nonneg e) as Hnn. fold e' in Hnn.
  pose proof (WantListEntryFacts.hasRefs_true e') as Hrefs.
  destruct (Entry.hasRefs e') eqn:Hr.
  - assert (Hpos : 0 < Entry._refCounter e') by now apply Hrefs.
    repeat split; auto.
    + intros H1. subst e'. rewrite WantListEntryFacts.dec_refs. lia.
    + rewrite H. discriminate.
    + intros H0. lia.
    + intros k Hk. now apply remove_get_other.
  - assert (Hz : Entry._refCounter e' = 0).
    { destruct (Z.eq_dec (Entry._refCounter e') 0) as [|n]; auto.
      assert (false = true) by (apply Hrefs; lia). discriminate. }
    repeat split; auto.
    + intros H1. subst e'. rewrite WantListEntryFacts.dec_refs. lia.
    + intros Hpos. lia.
    + intros k Hk. now apply remove_get_other.
Qed.

(** A CID wanted twice stays, with counter 1, after one [remove]; a CID
    wanted once is deleted by it. *)
Lemma remove_decrements_and_deletes_at_zero_witness :
  (JsMap.get (Cids.toBaseEncodedString Samples.cid_v0) (set Samples.wl_twice) =
     Some (Entry.mk 2 Samples.cid_v0 3 None) /\
   JsMap.get (Cids.toBaseEncodedString Samples.cid_v0)
     (set (remove Samples.wl_twice Samples.cid_v0)) =
     Some (Entry.mk 1 Samples.cid_v0 3 None)) /\
  (JsMap.get (Cids.toBaseEncodedString Samples.cid_v0) (set Samples.wl_once) =
     Some (Entry.mk 1 Samples.cid_v0 1 None) /\
   JsMap.get (Cids.toBaseEncodedString Samples.cid_v0)
     (set (remove Samples.wl_once Samples.cid_v0)) = None).
Proof.
  assert (H2 : JsMap.get (Cids.toBaseEncodedString Samples.cid_v0)
                 (set Samples.wl_twice) =
               Some (Entry.mk 2 Samples.cid_v0 3 None)) by reflexivity.
  assert (H1 : JsMap.get (Cids.toBaseEncodedString Samples.cid_v0)
                 (set Samples.wl_once) =
               Some (Entry.mk 1 Samples.cid_v0 1 None)) by reflexivity.
  split; (split; [assumption|]).
  - destruct (remove_decrements_and_deletes_at_zero _ _ _ H2)
      as (_ & _ & _ & Hstays & _).
    apply Hstays. reflexivity.
  - destruct (remove_decrements_and_deletes_at_zero _ _ _ H1)
      as (_ & _ & Hgone & _).
    apply Hgone. reflexivity.
Defined.

(** C9. [contains] returns a boolean: [true] when the wantlist holds an
    entry for the CID, [false] when it holds none. *)
Theorem contains_is_membership (wl : t) (cid : Cids.CID) :
  (contains wl cid = true <->
   exists e, JsMap.get (Cids.toBaseEncodedString cid) (set wl) = Some e) /\
  (contains wl cid = false <->
   JsMap.get (Cids.toBaseEncodedString cid) (set wl) = None) /\
  contains wl cid = JsMap.has (Cids.toBaseEncodedString cid) (set wl).
Proof.
  unfold contains, JsMap.has.
  destruct (JsMap.get (Cids.toBaseEncodedString cid) (set wl)) as [e|].
  - repeat split; try discriminate; eauto.
  - repeat split; try discriminate; auto. intros [e H]. discriminate.
Qed.

Lemma contains_is_membership_witness :
  contains Samples.wl_once Samples.cid_v0 = true /\
  contains Samples.wl_once Samples.cid_v1 = false.
Proof.
  split.
  - apply (proj1 (contains_is_membership Samples.wl_once Samples.cid_v0)).
    exists (Entry.mk 1 Samples.cid_v0 1 None). vm_compute. reflexivity.
  - apply (proj1 (proj2 (contains_is_membership
                           Samples.wl_once Samples.cid_v1))).
    vm_compute. reflexivity.
Defined.

(** The first revision of [contains] returns the entry itself, a value
    whose truthiness is the boolean of the second revision. *)
Lemma contains_rev1_truthy (wl : t) (cid : Cids.CID) :
  contains wl cid =
  match contains_rev1 wl cid with Some _ => true | None => false end.
Proof. reflexivity. Qed.

End WantlistFacts.

(** ** Strings in code-unit order, and stable sorting *)
Module SortFacts.

Lemma compare_refl s : String.compare s s = Eq.
Proof. now apply String_as_OT.cmp_eq. Qed.

Lemma compare_lt_trans a b c :
  String.compare a b = Lt -> String.compare b c = Lt -> String.compare a c = Lt.
Proof.
  intros H1 H2. apply String_as_OT.cmp_lt in H1, H2.
  apply String_as_OT.cmp_lt. eapply String_as_OT.lt_trans; eauto.
Qed.

Lemma leb_cases a b :
  String.leb a b = true <-> a = b \/ String.compare a b = Lt.
Proof.
  unfold String.leb. destruct (String.compare a b) eqn:E.
  - apply String_as_OT.cmp_eq in E. tauto.
  - tauto.
  - split; [discriminate|]. intros [->|]; [|discriminate].
    rewrite compare_refl in E. discriminate.
Qed.

Lemma leb_trans a b c :
  String.leb a b = true -> String.leb b c = true -> String.leb a c = true.
Proof.
  rewrite !leb_cases. intros [->|H1] [->|H2]; auto.
  right. eapply compare_lt_trans; eauto.
Qed.

Lemma ltb_asym a b : String.ltb a b = true -> String.ltb b a = true -> False.
Proof.
  unfold String.ltb. rewrite (String.compare_antisym b a).
  destruct (String.compare a b); simpl; discriminate.
Qed.

Section Insertion.
Context {A : Type} (le : A -> A -> bool).
Hypothesis le_total : forall a b, le a b = true \/ le b a = true.
Hypothesis le_trans : forall a b c, le a b = true -> le b c = true -> le a c = true.

Let leP (a b : A) : Prop := le a b = true.

Lemma insert_sorted_perm x l :
  Permutation (Wantlist.insert_sorted le x l) (x :: l).
Proof.
  induction l as [|y rest IH]; simpl; auto.
  destruct (le x y); auto.
  eapply perm_trans; [apply perm_skip, IH | apply perm_swap].
Qed.

Lemma array_sort_perm l : Permutation (Wantlist.array_sort le l) l.
Proof.
  induction l as [|x rest IH]; simpl; auto.
  eapply perm_trans; [apply insert_sorted_perm | now apply perm_skip].
Qed.

Lemma insert_sorted_sorted x l :
  StronglySorted leP l -> StronglySorted leP (Wantlist.insert_sorted le x l).
Proof.
  induction 1 as [|y rest Hs IH Hall]; simpl.
  - repeat constructor.
  - destruct (le x y) eqn:E.
    + constructor; [now constructor|].
      constructor; [exact E|].
      eapply Forall_impl; [|exact Hall].
      intros z Hz. eapply le_trans; eauto.
    + constructor; auto.
      assert (Hyx : leP y x) by (destruct (le_total x y); congruence).
      eapply Permutation_Forall.
      * apply Permutation_sym, insert_sorted_perm.
      * constructor; auto.
  Qed.

Lemma array_sort_sorted l : StronglySorted leP (Wantlist.array_sort le l).
Proof.
  induction l as [|x rest IH]; simpl.
  - constructor.
  - now apply insert_sorted_sorted.
Qed.

End Insertion.

(** A list sorted for [R] is sorted for any relation that [R] implies on
    its members. *)
Lemma StronglySorted_among {A} (R R' : A -> A -> Prop) (l : list A) :
  StronglySorted R l ->
  (forall i j a b, (i < j)%nat -> nth_error l i = Some a ->
                   nth_error l j = Some b -> R a b -> R' a b) ->
  StronglySorted R' l.
Proof.
  induction 1 as [|x rest Hs IH Hall]; intros Himp; constructor.
  - apply IH. intros i j a b Hij Ha Hb. apply (Himp (S i) (S j)); auto.
    lia.
  - rewrite Forall_forall in *. intros y Hy.
    destruct (In_nth_error _ _ Hy) as [j Hj].
    apply (Himp O (S j)); auto. lia.
Qed.

(** A strict order leaves one way to arrange given elements. *)
Lemma sorted_perm_unique {A} (R : A -> A -> Prop) :
  (forall a b, R a b -> R b a -> False) ->
  forall l1 l2 : list A,
    StronglySorted R l1 -> StronglySorted R l2 -> Permutation l1 l2 ->
    l1 = l2.
Proof.
  intros Hasym. induction l1 as [|a1 t1 IH]; intros l2 H1 H2 Hp.
  - apply Permutation_nil in Hp. now subst.
  - destruct l2 as [|a2 t2].
    + apply Permutation_sym, Permutation_nil in Hp. discriminate.
    + inversion H1 as [|? ? Hs1 Hall1]; subst.
      inversion H2 as [|? ? Hs2 Hall2]; subst.
      assert (Heq : a1 = a2).
      { assert (Hin2 : In a2 (a1 :: t1))
          by (eapply Permutation_in; [apply Permutation_sym, Hp | now left]).
        assert (Hin1 : In a1 (a2 :: t2))
          by (eapply Permutation_in; [apply Hp | now left]).
        destruct Hin2 as [|Hin2]; auto.
        destruct Hin1 as [|Hin1]; auto.
        rewrite Forall_forall in Hall1, Hall2.
        exfalso. eapply Hasym; eauto. }
      subst a2. f_equal. apply IH; auto.
      eapply Permutation_cons_inv; eauto.
Qed.

End SortFacts.

(** ** The string keys of CIDs *)
Module CidsFacts.
Import Cids WantlistInv.

Lemma get_In n : forall s c,
  String.get n s = Some c -> In c (list_ascii_of_string s).
Proof.
  induction n as [|n IH]; intros [|a s] c; simpl; try discriminate.
  - intros [= ->]. now left.
  - intros H. right. now apply IH.
Qed.

(** The encoder on the usual test vectors, and the keys of the sample
    CIDs. *)
Lemma base58btc_vectors :
  base58btc [Byte.x61] = "2g"%string /\
  base58btc [Byte.x62; Byte.x62; Byte.x62] = "a3gV"%string /\
  base58btc (list_byte_of_string "hello world") = "StV1DL6CwTryKyV"%string /\
  base58btc (List.repeat Byte.x00 10) = "1111111111"%string /\
  toBaseEncodedString Samples.cid_v0 =
    "QmNLei78zWmzUdbeRB3CiUfAizWUrbeeZh5K1rhAQKCh51"%string /\
  toBaseEncodedString Samples.cid_v1 =
    "zb2rhWeHCAMEN31RpTCQGoVQP3dVGDya5yPUTsPKXakAbAsGj"%string.
Proof. repeat split; vm_compute; reflexivity. Qed.

Lemma alphabet_above_comma : above_comma base58_alphabet = true.
Proof. reflexivity. Qed.

Lemma base58_char_above d : Ascii.ltb ","%char (base58_char d) = true.
Proof.
  unfold base58_char.
  destruct (String.get (N.to_nat d) base58_alphabet) as [c|] eqn:E.
  - apply get_In in E.
    pose proof alphabet_above_comma as H. unfold above_comma in H.
    rewrite forallb_forall in H. now apply H.
  - reflexivity.
Qed.

Lemma base58_digits_above fuel : forall n acc,
  forallb (fun c => Ascii.ltb ","%char c) acc = true ->
  forallb (fun c => Ascii.ltb ","%char c) (base58_digits fuel n acc) = true.
Proof.
  induction fuel as [|fuel IH]; intros n acc Hacc; simpl; auto.
  destruct (n =? 0)%N; auto.
  apply IH. simpl. now rewrite base58_char_above, Hacc.
Qed.

Lemma leading_zeros_above bs :
  forallb (fun c => Ascii.ltb ","%char c) (leading_zeros bs) = true.
Proof.
  induction bs as [|b rest IH]; simpl; auto.
  destruct b; simpl; auto.
Qed.

Lemma base58btc_above bs : above_comma (base58btc bs) = true.
Proof.
  unfold above_comma, base58btc.
  rewrite list_ascii_of_string_of_list_ascii, forallb_app.
  rewrite leading_zeros_above. simpl.
  now apply base58_digits_above.
Qed.

Lemma toBaseEncodedString_above c :
  above_comma (toBaseEncodedString c) = true.
Proof.
  unfold toBaseEncodedString, toString_base58btc.
  destruct (version c =? 0)%N.
  - apply base58btc_above.
  - pose proof (base58btc_above (bytes c)) as H.
    unfold above_comma in *. simpl. exact H.
Qed.

Lemma above_comma_cons c s :
  above_comma (String c s) = Ascii.ltb ","%char c && above_comma s.
Proof. reflexivity. Qed.

Lemma ascii_ltb_compare a b :
  Ascii.ltb a b = true -> Ascii.compare a b = Lt.
Proof. unfold Ascii.ltb. destruct (Ascii.compare a b); congruence. Qed.

(** Two different keys made of characters above the comma compare the
    same way with and without what follows them in a printed pair. *)
Lemma compare_keys_then_comma : forall k1 k2 r1 r2,
  above_comma k1 = true -> above_comma k2 = true -> k1 <> k2 ->
  String.compare (k1 ++ String ","%char r1) (k2 ++ String ","%char r2) =
  String.compare k1 k2.
Proof.
  induction k1 as [|c1 k1 IH]; intros [|c2 k2] r1 r2 H1 H2 Hne.
  - congruence.
  - rewrite above_comma_cons in H2. apply andb_prop in H2 as [Hc _].
    simpl. now rewrite (ascii_ltb_compare _ _ Hc).
  - rewrite above_comma_cons in H1. apply andb_prop in H1 as [Hc _].
    simpl. rewrite Ascii.compare_antisym, (ascii_ltb_compare _ _ Hc).
    reflexivity.
  - rewrite above_comma_cons in H1, H2.
    apply andb_prop in H1 as [_ H1]. apply andb_prop in H2 as [_ H2].
    simpl. destruct (Ascii.compare c1 c2) eqn:E; auto.
    apply Ascii.compare_eq_iff in E. subst c2.
    apply IH; auto. congruence.
Qed.

End CidsFacts.

(** ** What every wantlist satisfies *)
Module WantlistInvFacts.
Import Wantlist WantlistInv JsMapFacts.

Lemma distinct_NoDup l : distinct l = true <-> NoDup l.
Proof.
  induction l as [|k rest IH]; simpl.
  - split; auto. constructor.
  - rewrite andb_true_iff, negb_true_iff, IH. split.
    + intros [Hk Hr]. constructor; auto. intros Hin.
      assert (existsb (String.eqb k) rest = true).
      { apply existsb_exists. exists k. split; auto. apply String.eqb_refl. }
      congruence.
    + intros H. inversion H as [|? ? Hk Hr]; subst. split; auto.
      destruct (existsb (String.eqb k) rest) eqn:E; auto.
      apply existsb_exists in E as [x [Hin Hx]].
      apply String.eqb_eq in Hx. subst x. contradiction.
Qed.

Lemma well_keyed_iff wl :
  well_keyed wl = true <->
  NoDup (JsMap.keys (set wl)) /\ Forall keyedP (entries wl).
Proof.
  unfold well_keyed. rewrite andb_true_iff, distinct_NoDup.
  rewrite forallb_forall, Forall_forall.
  unfold keyed_entry, keyedP.
  split; intros [H1 H2]; split; auto; intros x Hx;
    apply String.eqb_eq; auto.
Qed.

Lemma counted_iff wl : counted wl = true <-> Forall countedP (entries wl).
Proof.
  unfold counted. rewrite forallb_forall, Forall_forall. unfold countedP.
  split; intros H x Hx; apply Z.leb_le; auto.
Qed.

Section MapShape.
Context {V : Type}.
Implicit Types (m : JsMap.Map V) (P : string * V -> Prop).

Lemma keys_set_present k v m :
  JsMap.get k m <> None -> JsMap.keys (JsMap.set k v m) = JsMap.keys m.
Proof.
  induction m as [|[k' v'] rest IH]; simpl; [congruence|].
  destruct (String.eqb k k'); simpl; auto.
  intros H. now rewrite IH.
Qed.

Lemma keys_delete k m :
  JsMap.keys (JsMap.delete k m) =
  filter (fun k' => negb (String.eqb k k')) (JsMap.keys m).
Proof.
  induction m as [|[k' v'] rest IH]; simpl; auto.
  destruct (String.eqb k k'); simpl; now rewrite IH.
Qed.

Lemma Forall_modify P k f m :
  Forall P m ->
  (forall v, JsMap.get k m = Some v -> P (k, v) -> P (k, f v)) ->
  Forall P (JsMap.modify k f m).
Proof.
  induction 1 as [|[k' v'] rest Hx Hrest IH]; intros Hf; simpl.
  - constructor.
  - simpl in Hf. destruct (String.eqb_spec k k') as [->|Hne].
    + constructor; auto.
    + constructor; auto.
Qed.

Lemma Forall_delete P k m : Forall P m -> Forall P (JsMap.delete k m).
Proof.
  intros H. rewrite delete_filter. rewrite Forall_forall in *.
  intros x Hx. apply filter_In in Hx as [Hx _]. auto.
Qed.

Lemma delete_modify k f m :
  JsMap.delete k (JsMap.modify k f m) = JsMap.delete k m.
Proof.
  induction m as [|[k' v'] rest IH]; simpl; auto.
  destruct (String.eqb k k') eqn:E; simpl; rewrite E; auto.
  now rewrite IH.
Qed.

End MapShape.

Lemma NoDup_keys_delete {V} k (m : JsMap.Map V) :
  NoDup (JsMap.keys m) -> NoDup (JsMap.keys (JsMap.delete k m)).
Proof. intros H. rewrite keys_delete. now apply NoDup_filter. Qed.

Lemma NoDup_keys_append {V} k (v : V) (m : JsMap.Map V) :
  JsMap.get k m = None -> NoDup (JsMap.keys m) ->
  NoDup (JsMap.keys (m ++ [(k, v)])).
Proof.
  intros Hk Hnd. unfold JsMap.keys. rewrite map_app. simpl.
  apply get_None_not_key in Hk.
  apply NoDup_app; auto.
  - repeat constructor. simpl. tauto.
  - intros x Hx [<-|[]]. contradiction.
Qed.

Lemma inv_constructor : inv constructor.
Proof. repeat split; constructor. Qed.

Lemma inv_add wl cid priority : inv wl -> inv (add wl cid priority).
Proof.
  intros (Hnd & Hk & Hc). unfold inv, add, entries, JsMap.entries in *.
  destruct (JsMap.get (Cids.toBaseEncodedString cid) (set wl)) eqn:E;
    cbn [set].
  - repeat split.
    + now rewrite keys_modify.
    + apply Forall_modify; auto.
    + apply Forall_modify; auto. unfold countedP. simpl. intros; lia.
  - rewrite (keys_set_absent _ _ _ E). repeat split.
    + now apply NoDup_keys_append.
    + apply Forall_app. split; auto. repeat constructor.
    + apply Forall_app. split; auto. repeat constructor.
      unfold countedP. simpl. lia.
Qed.

Lemma inv_remove wl cid : inv wl -> inv (remove wl cid).
Proof.
  intros (Hnd & Hk & Hc). unfold inv, remove, entries, JsMap.entries in *.
  destruct (JsMap.get (Cids.toBaseEncodedString cid) (set wl)) as [e|] eqn:E;
    [|repeat split; auto].
  destruct (Entry.hasRefs (Entry.dec e)) eqn:Hr; cbn [set].
  - repeat split.
    + now rewrite keys_modify.
    + apply Forall_modify; auto.
    + apply Forall_modify; auto. intros v Hv _.
      assert (v = e) by congruence. subst v.
      apply WantListEntryFacts.hasRefs_true in Hr.
      unfold countedP. simpl in *. lia.
  - rewrite delete_modify. repeat split.
    + now apply NoDup_keys_delete.
    + now apply Forall_delete.
    + now apply Forall_delete.
Qed.

Lemma inv_removeForce wl cidStr : inv wl -> inv (removeForce wl cidStr).
Proof.
  intros (Hnd & Hk & Hc). unfold inv, removeForce, entries, JsMap.entries in *.
  destruct (JsMap.has cidStr (set wl)); cbn [set]; repeat split; auto.
  - now apply NoDup_keys_delete.
  - now apply Forall_delete.
  - now apply Forall_delete.
Qed.

Lemma inv_fold calls : forall wl, inv wl -> inv (fold_left run_call calls wl).
Proof.
  induction calls as [|c calls IH]; intros wl H; simpl; auto.
  apply IH. destruct c; simpl;
    [apply inv_add | apply inv_remove | apply inv_removeForce]; auto.
Qed.

(** Whatever calls built it, a wantlist has distinct keys, each the string
    of its entry's CID, and every entry it holds is referenced. *)
Lemma run_well_keyed calls : well_keyed (run calls) = true.
Proof.
  destruct (inv_fold calls _ inv_constructor) as (H1 & H2 & _).
  apply well_keyed_iff. split; auto.
Qed.

Lemma run_counted calls : counted (run calls) = true.
Proof.
  destruct (inv_fold calls _ inv_constructor) as (_ & _ & H3).
  now apply counted_iff.
Qed.

End WantlistInvFacts.

(** ** [sortedEntries] *)
Module SortedEntriesFacts.
Import Wantlist WantlistInv.

Lemma pair_toString_eq kv :
  pair_toString kv =
  (fst kv ++ String ","%char (object_toString (snd kv)))%string.
Proof. reflexivity. Qed.

Lemma sort_le_total a b : sort_le a b = true \/ sort_le b a = true.
Proof. apply String.leb_total. Qed.

Lemma sort_le_trans a b c :
  sort_le a b = true -> sort_le b c = true -> sort_le a c = true.
Proof. apply SortFacts.leb_trans. Qed.

(** On pairs with different keys made of characters above the comma, the
    order of the printed pairs is the order of the keys. *)
Lemma sort_le_key_lt a b :
  above_comma (fst a) = true -> above_comma (fst b) = true ->
  fst a <> fst b -> sort_le a b = true -> key_lt a b.
Proof.
  intros Ha Hb Hne. unfold sort_le, key_lt, String.leb, String.ltb.
  rewrite !pair_toString_eq, CidsFacts.compare_keys_then_comma by auto.
  destruct (String.compare (fst a) (fst b)) eqn:E; auto.
  apply String_as_OT.cmp_eq in E. contradiction.
Qed.

Lemma sorted_by_key (wl : t) :
  well_keyed wl = true ->
  sortedEntries wl = array_sort sort_le (entries wl) /\
  StronglySorted key_lt (sortedEntries wl) /\
  Permutation (sortedEntries wl) (entries wl).
Proof.
  intros Hwk. apply WantlistInvFacts.well_keyed_iff in Hwk as [Hnd Hk].
  unfold sortedEntries. fold (entries wl).
  set (s := array_sort sort_le (entries wl)).
  assert (Hperm : Permutation s (entries wl))
    by apply SortFacts.array_sort_perm.
  assert (Hnds : NoDup (List.map fst s)).
  { eapply Permutation_NoDup; [|exact Hnd].
    apply Permutation_map, Permutation_sym, Hperm. }
  rewrite (JsMapFacts.from_entries_id s Hnds).
  split; [reflexivity|]. split; [|exact Hperm].
  assert (Habove : forall a, In a s -> above_comma (fst a) = true).
  { intros a Ha. apply (Permutation_in _ Hperm) in Ha.
    rewrite Forall_forall in Hk. rewrite (Hk a Ha).
    apply CidsFacts.toBaseEncodedString_above. }
  eapply SortFacts.StronglySorted_among.
  - apply (SortFacts.array_sort_sorted sort_le sort_le_total sort_le_trans).
  - intros i j a b Hij Hia Hjb Hle. fold s in Hia, Hjb.
    apply sort_le_key_lt; auto.
    + eapply Habove, nth_error_In; eauto.
    + eapply Habove, nth_error_In; eauto.
    + intros Heq.
      assert (Hi : nth_error (List.map fst s) i = Some (fst a))
        by now apply map_nth_error.
      assert (Hj : nth_error (List.map fst s) j = Some (fst b))
        by now apply map_nth_error.
      rewrite NoDup_nth_error in Hnds.
      assert (i = j); [|lia].
      apply Hnds; [|congruence].
      apply nth_error_Some. congruence.
Qed.

(** Two well-keyed wantlists with the same contents sort to the same
    sequence. *)
Lemma sortedEntries_same_contents (wl1 wl2 : t) :
  well_keyed wl1 = true -> well_keyed wl2 = true ->
  same_contents wl1 wl2 ->
  sortedEntries wl1 = sortedEntries wl2.
Proof.
  intros H1 H2 Hsame.
  destruct (sorted_by_key wl1 H1) as (_ & Hs1 & Hp1).
  destruct (sorted_by_key wl2 H2) as (_ & Hs2 & Hp2).
  apply (SortFacts.sorted_perm_unique key_lt); auto.
  - intros a b. apply SortFacts.ltb_asym.
  - eapply perm_trans; [exact Hp1|].
    eapply perm_trans; [exact Hsame|]. now apply Permutation_sym.
Qed.

(** The same for the wantlists that calls of [add], [remove] and
    [removeForce] build from the empty one: nothing has to be assumed of
    them. *)
Lemma sortedEntries_of_runs (calls1 calls2 : list call) :
  same_contents (run calls1) (run calls2) ->
  sortedEntries (run calls1) = sortedEntries (run calls2) /\
  StronglySorted key_lt (sortedEntries (run calls1)).
Proof.
  intros Hsame. split.
  - apply sortedEntries_same_contents; auto;
      apply WantlistInvFacts.run_well_keyed.
  - apply sorted_by_key, WantlistInvFacts.run_well_keyed.
Qed.

(** C8, as the code has it.  The entries come out in ascending order of
    their string keys (the base-encoded CIDs, compared code unit by code
    unit), each entry once; the result depends on the contents of the
    wantlist only, not on the order of insertion: two wantlists with the
    same contents yield the same sequence. *)
Theorem sortedEntries_deterministic_by_key (wl1 wl2 : t) :
  well_keyed wl1 = true -> well_keyed wl2 = true ->
  same_contents wl1 wl2 ->
  sortedEntries wl1 = sortedEntries wl2 /\
  StronglySorted key_lt (sortedEntries wl1) /\
  Permutation (sortedEntries wl1) (entries wl1).
Proof.
  intros H1 H2 Hsame.
  destruct (sorted_by_key wl1 H1) as (_ & Hs1 & Hp1).
  split; [|split]; auto.
  now apply sortedEntries_same_contents.
Qed.

Lemma sortedEntries_deterministic_by_key_witness :
  well_keyed Samples.wl_v1_then_v0 = true /\
  well_keyed Samples.wl_v0_then_v1 = true /\
  same_contents Samples.wl_v1_then_v0 Samples.wl_v0_then_v1 /\
  sortedEntries Samples.wl_v1_then_v0 = sortedEntries Samples.wl_v0_then_v1 /\
  StronglySorted key_lt (sortedEntries Samples.wl_v1_then_v0) /\
  Permutation (sortedEntries Samples.wl_v1_then_v0)
              (entries Samples.wl_v1_then_v0).
Proof.
  assert (H1 : well_keyed Samples.wl_v1_then_v0 = true) by reflexivity.
  assert (H2 : well_keyed Samples.wl_v0_then_v1 = true) by reflexivity.
  assert (H3 : same_contents Samples.wl_v1_then_v0 Samples.wl_v0_then_v1).
  { unfold same_contents. vm_compute. apply perm_swap. }
  split; [exact H1|]. split; [exact H2|]. split; [exact H3|].
  exact (sortedEntries_deterministic_by_key _ _ H1 H2 H3).
Defined.

(** C8, as the spec has it, fails.  A wantlist holding a version 0 and a
    version 1 CID comes out with the version 0 CID first (its key starts
    with [Q], the other with the multibase letter, [z] for base58btc),
    while the canonical bytes of the version 1 CID (starting 0x01) are
    below those of the version 0 CID (starting 0x12). *)
Lemma sortedEntries_not_byte_ordered :
  List.map fst (sortedEntries Samples.wl_v1_then_v0) =
    [Cids.toBaseEncodedString Samples.cid_v0;
     Cids.toBaseEncodedString Samples.cid_v1] /\
  bytes_leb (Cids.bytes Samples.cid_v0) (Cids.bytes Samples.cid_v1) = false /\
  ~ byte_ordered (sortedEntries Samples.wl_v1_then_v0).
Proof.
  split; [reflexivity|]. split; [reflexivity|].
  intros H. unfold byte_ordered in H. vm_compute in H.
  inversion H as [|a l Hs Hall]; subst.
  inversion Hall as [|b l' Hab Hrest]; subst.
  discriminate Hab.
Qed.

End SortedEntriesFacts.

(** ** Running asynchronous computations *)
Module AsyncFacts.
Import Async.

Section Run.
Context {S : Type}.

Lemma trace_bind {A B} (m : t S A) (k : A -> t S B) s :
  trace (bind m k s) =
  (trace (m s) ++
   match result (m s) with
   | Resolved a => trace (k a (state (m s)))
   | Rejected _ => []
   end)%list.
Proof.
  unfold bind, trace, result, state.
  destruct (m s) as [[[a|e] s1] tr1]; simpl.
  - now destruct (k a s1) as [[r s2] tr2].
  - now rewrite app_nil_r.
Qed.

Lemma result_bind {A B} (m : t S A) (k : A -> t S B) s :
  result (bind m k s) =
  match result (m s) with
  | Resolved a => result (k a (state (m s)))
  | Rejected e => Rejected e
  end.
Proof.
  unfold bind, result, state.
  destruct (m s) as [[[a|e] s1] tr1]; simpl; auto.
  now destruct (k a s1) as [[r s2] tr2].
Qed.

Lemma state_bind {A B} (m : t S A) (k : A -> t S B) s :
  state (bind m k s) =
  match result (m s) with
  | Resolved a => state (k a (state (m s)))
  | Rejected e => state (m s)
  end.
Proof.
  unfold bind, result, state.
  destruct (m s) as [[[a|e] s1] tr1]; simpl; auto.
  now destruct (k a s1) as [[r s2] tr2].
Qed.

Lemma run_eta {A} (x : Result A * S * list Event) :
  x = (result x, state x, trace x).
Proof. now destruct x as [[r s] tr]. Qed.

(** A loop emits only events of a kind its body emits. *)
Lemma for_each_trace {A} (P : Event -> Prop) (body : A -> t S unit) :
  (forall x s, Forall P (trace (body x s))) ->
  forall l s, Forall P (trace (for_each l body s)).
Proof.
  intros Hbody. induction l as [|x rest IH]; intros s; simpl.
  - constructor.
  - rewrite trace_bind. apply Forall_app. split; auto.
    destruct (result (body x s)); auto.
Qed.

Lemma for_each_state {A} (body : A -> t S unit) :
  (forall x s, state (body x s) = s) ->
  forall l s, state (for_each l body s) = s.
Proof.
  intros Hbody. induction l as [|x rest IH]; intros s; simpl; auto.
  rewrite state_bind. destruct (result (body x s)); rewrite ?IH; auto.
Qed.

End Run.

Lemma all_resolved {A} (l : list (Result A)) :
  Forall (fun r => exists a, r = Resolved a) l -> exists v, all l = Resolved v.
Proof.
  induction 1 as [|r rest [a ->] _ [v IH]]; simpl; eauto.
  rewrite IH. eauto.
Qed.

End AsyncFacts.

(** ** The network adapter *)
Module NetworkFacts.
Import Network Observe.

(** C3. A network built without [b100Only], or with [b100Only] false,
    advertises exactly /ipfs/bitswap/1.2.0, /ipfs/bitswap/1.1.0,
    /ipfs/bitswap/1.0.0, in this order (newest first); one built with
    [b100Only] true advertises exactly /ipfs/bitswap/1.0.0.  [start] hands
    this very list to the transport's [handle], once. *)
Theorem advertised_protocols
        (libp2p : Libp2p) (has_stats : bool) (mi mo tmo : option Z) :
  _protocols (constructor libp2p has_stats (mkOptions None mi mo tmo)) =
    ["/ipfs/bitswap/1.2.0"; "/ipfs/bitswap/1.1.0"; "/ipfs/bitswap/1.0.0"]%string /\
  _protocols (constructor libp2p has_stats (mkOptions (Some false) mi mo tmo)) =
    ["/ipfs/bitswap/1.2.0"; "/ipfs/bitswap/1.1.0"; "/ipfs/bitswap/1.0.0"]%string /\
  _protocols (constructor libp2p has_stats (mkOptions (Some true) mi mo tmo)) =
    ["/ipfs/bitswap/1.0.0"]%string /\
  (forall b100,
     let n := constructor libp2p has_stats (mkOptions b100 mi mo tmo) in
     handled (Async.trace (start n)) = [_protocols n]).
Proof.
  repeat split.
  intros b100 n. clearbody n.
  assert (Hno : forall tr,
             Forall (fun ev => match ev with
                               | Libp2pHandle _ _ _ => False
                               | _ => True
                               end) tr -> handled tr = []).
  { induction 1 as [|ev tr Hev _ IH]; simpl; auto.
    destruct ev; simpl; auto. contradiction. }
  unfold start.
  rewrite AsyncFacts.trace_bind.
  cbn [Async.get Async.trace Async.result Async.state fst snd app].
  rewrite AsyncFacts.trace_bind.
  cbn [Async.put Async.trace Async.result Async.state fst snd app].
  rewrite AsyncFacts.trace_bind.
  cbn [Async.emit Async.trace Async.result Async.state fst snd app].
  cbn [handled flat_map app]. f_equal.
  rewrite AsyncFacts.trace_bind.
  unfold Async.lift.
  cbn [Async.trace Async.result Async.state fst snd app].
  destruct (handle (_libp2p n) (_protocols n)) as [[]|e]; [|reflexivity].
  rewrite AsyncFacts.trace_bind.
  cbn [Async.get Async.trace Async.result Async.state fst snd app].
  rewrite AsyncFacts.trace_bind.
  cbn [Async.put Async.trace Async.result Async.state fst snd app].
  rewrite AsyncFacts.trace_bind.
  unfold handled. rewrite flat_map_app. fold handled.
  rewrite Hno.
  - cbn [app]. destruct (Async.result _); auto. apply Hno.
    apply AsyncFacts.for_each_trace. intros conn s. repeat constructor.
  - apply AsyncFacts.for_each_trace. intros protocol s.
    rewrite AsyncFacts.trace_bind.
    cbn [Async.emit Async.trace Async.result Async.state fst snd app].
    constructor; auto.
    rewrite AsyncFacts.trace_bind. unfold Async.lift.
    cbn [Async.trace Async.result Async.state fst snd app].
    destruct (register (_libp2p n) protocol); [|constructor].
    rewrite AsyncFacts.trace_bind.
    cbn [Async.get Async.put Async.trace Async.result Async.state fst snd app].
    constructor.
Qed.

(** [connectTo] fails when the network is not running, and otherwise
    does what the dial does. *)
Lemma connectTo_run {S} (n : t) (peer : PeerId) (s : S) :
  connectTo n peer s =
  if _running n
  then (dial (_libp2p n) peer, s, [NetConnectTo peer; Libp2pDial peer])
  else (Async.Rejected NetworkNotRunning, s, [NetConnectTo peer]).
Proof.
  unfold connectTo, Async.bind, Async.emit, Async.throw, Async.lift.
  destruct (_running n); simpl; auto.
Qed.

Lemma sent_messages_app tr1 tr2 :
  sent_messages (tr1 ++ tr2) = (sent_messages tr1 ++ sent_messages tr2)%list.
Proof. apply flat_map_app. Qed.

Lemma connects_app tr1 tr2 :
  connects (tr1 ++ tr2) = (connects tr1 ++ connects tr2)%list.
Proof. apply flat_map_app. Qed.

Lemma inner_quiet tr :
  Forall inner tr -> sent_messages tr = [] /\ connects tr = [].
Proof.
  induction 1 as [|ev tr Hev _ [IH1 IH2]]; simpl; auto.
  destruct ev; simpl in *; auto; contradiction.
Qed.

Lemma updateSentStats_inner {S} (n : t) peer blocks (s : S) :
  Forall inner (Async.trace (_updateSentStats n peer blocks s)).
Proof.
  unfold _updateSentStats. destruct (_has_stats n); [|constructor].
  rewrite AsyncFacts.trace_bind. apply Forall_app. split.
  - apply AsyncFacts.for_each_trace. intros x s'. repeat constructor.
  - destruct (Async.result _); repeat constructor.
Qed.

Lemma updateSentStats_state {S} (n : t) peer blocks (s : S) :
  Async.state (_updateSentStats n peer blocks s) = s.
Proof.
  unfold _updateSentStats. destruct (_has_stats n); auto.
  rewrite AsyncFacts.state_bind.
  rewrite AsyncFacts.for_each_state by reflexivity.
  destruct (Async.result _); auto.
Qed.

Lemma writeMessage_run {S} (n : t) stream msg (s : S) :
  exists tr, writeMessage n stream msg s = (Async.Resolved tt, s, tr) /\
             Forall inner tr.
Proof.
  unfold writeMessage, Async.bind, Async.settle, Async.emit, Async.ret,
    Async.throw, Async.lift.
  destruct (String.eqb (stat_protocol stream) BITSWAP100);
    [|destruct (String.eqb (stat_protocol stream) BITSWAP110
               || String.eqb (stat_protocol stream) BITSWAP120)];
    cbn [app]; try destruct (pipe (_libp2p n) stream);
    cbn [app]; eexists; (split; [reflexivity|]); repeat constructor.
Qed.

(** [sendMessage] is one call of the adapter; what it goes on to do on the
    transport is no further call, and the caller's state is untouched. *)
Lemma sendMessage_run {S} (n : t) peer msg (s : S) :
  exists r tr,
    sendMessage n peer msg s = (r, s, NetSendMessage peer msg :: tr) /\
    Forall inner tr.
Proof.
  unfold sendMessage, Async.bind, Async.emit, Async.throw, Async.lift.
  destruct (_running n); cbn [negb];
    [|do 2 eexists; split; [reflexivity|constructor]].
  destruct (dial (_libp2p n) peer) as [conn|e];
    [|do 2 eexists; split; [reflexivity|repeat constructor]].
  destruct (newStream (_libp2p n) conn _) as [stream|e];
    [|do 2 eexists; split; [reflexivity|repeat constructor]].
  destruct (writeMessage_run n stream msg s) as (trw & -> & Hw).
  pose proof (updateSentStats_inner n peer (BitswapMessage.blocks msg) s) as Hu.
  pose proof (updateSentStats_state n peer (BitswapMessage.blocks msg) s) as Hs.
  destruct (_updateSentStats n peer (BitswapMessage.blocks msg) s)
    as [[r s'] tru].
  cbn [Async.trace Async.state snd fst] in Hu, Hs. subst s'.
  do 2 eexists. split; [reflexivity|].
  cbn [app]. repeat constructor. apply Forall_app. split; auto.
Qed.

End NetworkFacts.

(** ** The message built from the pending entries *)
Module BuiltFacts.
Import Observe JsMapFacts.

Lemma set_not_empty {V} k (v : V) m : JsMap.set k v m <> [].
Proof.
  destruct m as [|[k' v'] rest]; simpl; [discriminate|].
  destruct (String.eqb k k'); discriminate.
Qed.

Lemma add_pending_wantlist m e :
  BitswapMessage.wantlist (MsgQueue.add_pending m e) =
  JsMap.set (pending_key e) (carried e) (BitswapMessage.wantlist m).
Proof.
  unfold MsgQueue.add_pending, carried, pending_key.
  now destruct (MsgQueue.is_true (MsgQueue.cancel e)).
Qed.

Lemma add_pending_rest m e :
  BitswapMessage.full (MsgQueue.add_pending m e) = BitswapMessage.full m /\
  BitswapMessage.blocks (MsgQueue.add_pending m e) = BitswapMessage.blocks m /\
  BitswapMessage.blockPresences (MsgQueue.add_pending m e) =
    BitswapMessage.blockPresences m.
Proof.
  unfold MsgQueue.add_pending.
  now destruct (MsgQueue.is_true (MsgQueue.cancel e)).
Qed.

Lemma add_pending_get m e k :
  JsMap.get k (BitswapMessage.wantlist (MsgQueue.add_pending m e)) =
  if String.eqb (pending_key e) k then Some (carried e)
  else JsMap.get k (BitswapMessage.wantlist m).
Proof.
  rewrite add_pending_wantlist.
  destruct (String.eqb_spec (pending_key e) k) as [<-|Hne].
  - apply get_set_same.
  - now rewrite get_set_other by auto.
Qed.

Lemma fold_rest pending : forall m,
  BitswapMessage.full (fold_left MsgQueue.add_pending pending m) =
    BitswapMessage.full m /\
  BitswapMessage.blocks (fold_left MsgQueue.add_pending pending m) =
    BitswapMessage.blocks m /\
  BitswapMessage.blockPresences (fold_left MsgQueue.add_pending pending m) =
    BitswapMessage.blockPresences m.
Proof.
  induction pending as [|e rest IH]; intros m; simpl; auto.
  destruct (IH (MsgQueue.add_pending m e)) as (-> & -> & ->).
  apply add_pending_rest.
Qed.

Lemma fold_get pending : forall m k,
  JsMap.get k (BitswapMessage.wantlist (fold_left MsgQueue.add_pending pending m)) =
  match last_for k pending with
  | Some e => Some (carried e)
  | None => JsMap.get k (BitswapMessage.wantlist m)
  end.
Proof.
  induction pending as [|e rest IH]; intros m k; simpl; auto.
  rewrite IH. destruct (last_for k rest); auto.
  rewrite add_pending_get.
  now destruct (String.eqb (pending_key e) k).
Qed.

Lemma fold_not_empty pending : forall m,
  BitswapMessage.wantlist m <> [] ->
  BitswapMessage.wantlist (fold_left MsgQueue.add_pending pending m) <> [].
Proof.
  induction pending as [|e rest IH]; intros m Hm; simpl; auto.
  apply IH. rewrite add_pending_wantlist. apply set_not_empty.
Qed.

Lemma fold_distinct pending : forall m,
  NoDup (JsMap.keys (BitswapMessage.wantlist m) ++ List.map pending_key pending) ->
  BitswapMessage.wantlist (fold_left MsgQueue.add_pending pending m) =
  (BitswapMessage.wantlist m ++
   List.map (fun e => (pending_key e, carried e)) pending)%list.
Proof.
  induction pending as [|e rest IH]; intros m Hnd; simpl.
  - now rewrite app_nil_r.
  - assert (Habs : JsMap.get (pending_key e) (BitswapMessage.wantlist m) = None).
    { apply get_None_not_key. apply NoDup_remove_2 in Hnd.
      intros Hin. apply Hnd, in_or_app. now left. }
    assert (Hw : BitswapMessage.wantlist (MsgQueue.add_pending m e) =
                 (BitswapMessage.wantlist m ++ [(pending_key e, carried e)])%list).
    { rewrite add_pending_wantlist. now apply keys_set_absent. }
    rewrite IH; rewrite Hw.
    + now rewrite <- app_assoc.
    + unfold JsMap.keys. rewrite map_app, <- app_assoc. simpl.
      apply NoDup_remove_1 in Hnd as Hnd1.
      apply NoDup_remove_2 in Hnd as Hnd2.
      replace (List.map fst (BitswapMessage.wantlist m) ++
               pending_key e :: List.map pending_key rest)%list
        with ((List.map fst (BitswapMessage.wantlist m) ++ [pending_key e]) ++
              List.map pending_key rest)%list
        by (now rewrite <- app_assoc).
      rewrite <- app_assoc. simpl. exact Hnd.
Qed.

Lemma last_for_In k pending e :
  In e pending -> pending_key e = k -> last_for k pending <> None.
Proof.
  induction pending as [|e' rest IH]; simpl; [tauto|].
  intros [->|Hin] Hk.
  - destruct (last_for k rest); [discriminate|].
    rewrite Hk, String.eqb_refl. discriminate.
  - specialize (IH Hin Hk). destruct (last_for k rest); [discriminate|].
    contradiction.
Qed.

Lemma built_not_empty pending :
  pending <> [] -> BitswapMessage.empty (built pending) = false.
Proof.
  intros Hne. unfold built, BitswapMessage.empty.
  destruct pending as [|e rest]; [contradiction|]. simpl.
  assert (Hw : BitswapMessage.wantlist
                 (fold_left MsgQueue.add_pending rest
                    (MsgQueue.add_pending (BitswapMessage.constructor false) e))
               <> []).
  { apply fold_not_empty. rewrite add_pending_wantlist. apply set_not_empty. }
  destruct (BitswapMessage.wantlist _) as [|x l]; [contradiction|].
  unfold JsMap.size. simpl List.length.
  rewrite andb_false_r. reflexivity.
Qed.

End BuiltFacts.

(** ** The message queue *)
Module MsgQueueFacts.
Import MsgQueue Observe NetworkFacts.

(** [send] always resolves and leaves the queue as it is; it calls
    [connectTo] once and [sendMessage] only after a successful connect. *)
Lemma send_run (network : Network.t) (msg : BitswapMessage.t) (q : t) :
  exists tr,
    send network msg q = (Async.Resolved tt, q, tr) /\
    connects tr = [peerId q] /\
    sent_messages tr =
      match Async.result (Network.connectTo network (peerId q) q) with
      | Async.Resolved _ => [(peerId q, msg)]
      | Async.Rejected _ => []
      end.
Proof.
  unfold send, Async.bind, Async.get, Async.settle.
  rewrite !connectTo_run.
  destruct (Network._running network).
  - destruct (Network.dial (Network._libp2p network) (peerId q)) as [conn|e].
    + destruct (sendMessage_run network (peerId q) msg q)
        as (r & tr & Hrun & Hin).
      unfold Async.emit, Async.ret. rewrite Hrun.
      apply inner_quiet in Hin as [Hs Hc].
      destruct r as [[]|e]; eexists; (split; [reflexivity|]);
        cbn [app]; cbn [connects sent_messages flat_map app];
        fold (connects tr); fold (sent_messages tr);
        rewrite ?connects_app, ?sent_messages_app, ?Hs, ?Hc; auto.
    + eexists. split; [reflexivity|]. auto.
  - eexists. split; [reflexivity|]. auto.
Qed.

(** C2. [send] never rejects and never changes the queue.  When
    [network.connectTo(peer)] fails, the message is dropped:
    [network.sendMessage] is not called at all.  When it succeeds,
    [network.sendMessage(peer, msg)] is called, once, with this peer and
    this message. *)
Theorem send_drops_on_connect_failure
        (network : Network.t) (msg : BitswapMessage.t) (q : t) :
  Async.result (send network msg q) = Async.Resolved tt /\
  Async.state (send network msg q) = q /\
  match Async.result (Network.connectTo network (peerId q) q) with
  | Async.Rejected _ =>
      sent_messages (Async.trace (send network msg q)) = []
  | Async.Resolved _ =>
      sent_messages (Async.trace (send network msg q)) = [(peerId q, msg)]
  end.
Proof.
  destruct (send_run network msg q) as (tr & -> & _ & Hs).
  repeat split.
  cbn [Async.trace snd].
  destruct (Async.result (Network.connectTo network (peerId q) q)); auto.
Qed.

(** On a transport that reaches nobody the message is dropped; on one
    that works it is handed to [sendMessage]. *)
Lemma send_drops_on_connect_failure_witness :
  sent_messages (Async.trace
    (send (Samples.started (Samples.dead_libp2p []))
          (built [Samples.want_v0]) Samples.queueB)) = [] /\
  sent_messages (Async.trace
    (send (Samples.started (Samples.good_libp2p []))
          (built [Samples.want_v0]) Samples.queueB)) =
    [(Samples.peerB, built [Samples.want_v0])].
Proof.
  split.
  - exact (proj2 (proj2 (send_drops_on_connect_failure
             (Samples.started (Samples.dead_libp2p []))
             (built [Samples.want_v0]) Samples.queueB))).
  - exact (proj2 (proj2 (send_drops_on_connect_failure
             (Samples.started (Samples.good_libp2p []))
             (built [Samples.want_v0]) Samples.queueB))).
Defined.

Lemma detach_send network msg q :
  Async.detach (send network msg) q = send network msg q.
Proof.
  unfold Async.detach.
  now destruct (send_run network msg q) as (tr & -> & _).
Qed.

Lemma addMessage_run network msg q :
  addMessage network msg q =
  if BitswapMessage.empty msg then (Async.Resolved tt, q, [])
  else send network msg q.
Proof.
  unfold addMessage. destruct (BitswapMessage.empty msg); auto.
  apply detach_send.
Qed.

Lemma send_sends_only_its_message network msg q p m :
  In (p, m) (sent_messages (Async.trace (send network msg q))) ->
  p = peerId q /\ m = msg.
Proof.
  destruct (send_run network msg q) as (tr & -> & _ & Hs).
  cbn [Async.trace snd]. rewrite Hs.
  destruct (Async.result _); simpl; [|tauto].
  intros [[= <- <-]|[]]. auto.
Qed.

Lemma sendEntries_run network q :
  sendEntries network q =
  match _entries q with
  | [] => (Async.Resolved tt, q, [])
  | _ :: _ => send network (built (_entries q)) (set_entries [] q)
  end.
Proof.
  unfold sendEntries, Async.bind, Async.get, Async.put.
  destruct (_entries q) as [|e rest] eqn:E; [reflexivity|].
  cbn [List.length Z.of_nat]. cbn [Z.eqb].
  rewrite addMessage_run.
  fold (built (e :: rest)).
  rewrite BuiltFacts.built_not_empty by discriminate.
  now destruct (send network (built (e :: rest)) (set_entries [] q))
    as [[r s] tr].
Qed.

(** C10. [addMessage] with an empty message does nothing: the queue is
    unchanged and no call is made.  No path of the queue hands an empty
    message to the network: whatever [addMessage], [sendEntries] or the
    firing of the debounce timer pass to [network.sendMessage] is not
    empty. *)
Theorem addMessage_ignores_empty
        (network : Network.t) (msg : BitswapMessage.t) (q : t) :
  (BitswapMessage.empty msg = true ->
   addMessage network msg q = (Async.Resolved tt, q, [])) /\
  (forall p m,
     In (p, m) (sent_messages (Async.trace (addMessage network msg q))) ->
     m = msg /\ BitswapMessage.empty m = false) /\
  (forall p m,
     In (p, m) (sent_messages (Async.trace (sendEntries network q))) ->
     BitswapMessage.empty m = false) /\
  (forall p m,
     In (p, m) (sent_messages (Async.trace (debounce_fire network q))) ->
     BitswapMessage.empty m = false).
Proof.
  assert (Hse : forall q' p m,
             In (p, m) (sent_messages (Async.trace (sendEntries network q'))) ->
             BitswapMessage.empty m = false).
  { intros q' p m. rewrite sendEntries_run.
    destruct (_entries q') as [|e rest] eqn:E; [simpl; tauto|].
    intros H. apply send_sends_only_its_message in H as [_ ->].
    apply BuiltFacts.built_not_empty. discriminate. }
  split; [|split; [|split]].
  - intros He. rewrite addMessage_run. now rewrite He.
  - intros p m. rewrite addMessage_run.
    destruct (BitswapMessage.empty msg) eqn:He; [simpl; tauto|].
    intros H. apply send_sends_only_its_message in H as [_ ->]. auto.
  - apply Hse.
  - intros p m. unfold debounce_fire, Async.bind, Async.get, Async.put.
    destruct (debounce_armed q); [|simpl; tauto].
    pose proof (Hse (set_armed false q) p m) as H.
    destruct (sendEntries network (set_armed false q)) as [[r s] tr].
    exact H.
Qed.

Lemma addMessage_ignores_empty_witness :
  BitswapMessage.empty (BitswapMessage.constructor true) = true /\
  addMessage (Samples.started (Samples.good_libp2p []))
             (BitswapMessage.constructor true) Samples.queueB =
  (Async.Resolved tt, Samples.queueB, []).
Proof.
  split; [reflexivity|].
  apply (proj1 (addMessage_ignores_empty
                  (Samples.started (Samples.good_libp2p []))
                  (BitswapMessage.constructor true) Samples.queueB)).
  reflexivity.
Defined.

(** C1. [sendEntries] with nothing pending does nothing.  With pending
    entries it clears the pending list and hands one message to [send].
    The message is a fresh non-full message to which every pending entry
    was added in turn, by [cancel(cid)] when the entry is flagged [cancel]
    and by [addEntry(cid, priority)] otherwise; it carries no block.  It
    has an entry for the CID of every pending entry, a cancel entry where
    the (last) pending entry for the CID is flagged [cancel], a want entry
    with that entry's priority otherwise; when the pending CIDs are
    distinct, its entries are exactly the pending ones, in their order. *)
Theorem sendEntries_flushes_pending (network : Network.t) (q : t) :
  (_entries q = [] ->
   sendEntries network q = (Async.Resolved tt, q, [])) /\
  (_entries q <> [] ->
   let msg := built (_entries q) in
   sendEntries network q = send network msg (set_entries [] q) /\
   _entries (Async.state (sendEntries network q)) = [] /\
   connects (Async.trace (sendEntries network q)) = [peerId q] /\
   msg = fold_left
           (fun m e =>
              if is_true (cancel e) then BitswapMessage.cancelEntry m (cid e)
              else BitswapMessage.addEntry m (cid e) (priority e))
           (_entries q) (BitswapMessage.constructor false) /\
   BitswapMessage.full msg = false /\
   BitswapMessage.empty msg = false /\
   BitswapMessage.blocks msg = [] /\
   BitswapMessage.blockPresences msg = [] /\
   (forall e, In e (_entries q) ->
      exists me,
        JsMap.get (pending_key e) (BitswapMessage.wantlist msg) = Some me) /\
   (forall k,
      JsMap.get k (BitswapMessage.wantlist msg) =
      option_map carried (last_for k (_entries q))) /\
   (NoDup (List.map pending_key (_entries q)) ->
      BitswapMessage.wantlist msg =
      List.map (fun e => (pending_key e, carried e)) (_entries q))).
Proof.
  split.
  - intros E. rewrite sendEntries_run. now rewrite E.
  - intros Hne msg.
    assert (Hget : forall k,
               JsMap.get k (BitswapMessage.wantlist msg) =
               option_map carried (last_for k (_entries q))).
    { intros k. unfold msg, built. rewrite BuiltFacts.fold_get.
      destruct (last_for k (_entries q)); reflexivity. }
    assert (Hrun : sendEntries network q =
                   send network msg (set_entries [] q)).
    { rewrite sendEntries_run. destruct (_entries q) eqn:E; [congruence|].
      reflexivity. }
    destruct (BuiltFacts.fold_rest (_entries q) (BitswapMessage.constructor false))
      as (Hfull & Hblocks & Hpres).
    destruct (send_run network msg (set_entries [] q)) as (tr & Hsend & Hc & _).
    repeat split; auto.
    + rewrite Hrun, Hsend. reflexivity.
    + rewrite Hrun, Hsend. exact Hc.
    + now apply BuiltFacts.built_not_empty.
    + intros e He. rewrite Hget.
      pose proof (BuiltFacts.last_for_In (pending_key e) _ e He eq_refl) as Hl.
      destruct (last_for (pending_key e) (_entries q)) as [e'|];
        [eexists; reflexivity | contradiction].
    + intros Hnd. unfold msg, built.
      now rewrite BuiltFacts.fold_distinct.
Qed.

(** A queue with nothing pending, and one with a want and a cancel. *)
Lemma sendEntries_flushes_pending_witness :
  (_entries Samples.queueB = [] /\
   sendEntries (Samples.started (Samples.good_libp2p [])) Samples.queueB =
   (Async.Resolved tt, Samples.queueB, [])) /\
  (_entries Samples.queueB_pending <> [] /\
   NoDup (List.map pending_key (_entries Samples.queueB_pending)) /\
   sendEntries (Samples.started (Samples.good_libp2p []))
     Samples.queueB_pending =
   send (Samples.started (Samples.good_libp2p []))
     (built [Samples.want_v0; Samples.cancel_v1]) Samples.queueB /\
   BitswapMessage.wantlist (built [Samples.want_v0; Samples.cancel_v1]) =
   [(Cids.toString_base58btc Samples.cid_v0,
     BitswapMessage.mkEntry Samples.cid_v0 5 WantListEntry.Block false);
    (Cids.toString_base58btc Samples.cid_v1,
     BitswapMessage.mkEntry Samples.cid_v1 0 WantListEntry.Block true)]).
Proof.
  split.
  - split; [reflexivity|].
    apply (proj1 (sendEntries_flushes_pending
                    (Samples.started (Samples.good_libp2p []))
                    Samples.queueB)).
    reflexivity.
  - assert (Hne : _entries Samples.queueB_pending <> [])
      by (intro H; discriminate H).
    assert (Hnd : NoDup (List.map pending_key (_entries Samples.queueB_pending))).
    { vm_compute. constructor.
      - intros [H|[]]. discriminate H.
      - constructor; [intros []|constructor]. }
    split; [exact Hne|]. split; [exact Hnd|].
    destruct (proj2 (sendEntries_flushes_pending
                       (Samples.started (Samples.good_libp2p []))
                       Samples.queueB_pending) Hne)
      as (Hrun & _ & _ & _ & _ & _ & _ & _ & _ & _ & Hexact).
    split; [exact Hrun | exact (Hexact Hnd)].
Defined.

End MsgQueueFacts.

(** ** [findAndConnect] *)
Module FindAndConnectFacts.
Import Network Observe NetworkFacts.

Lemma firstn_step {A} (x : A) rest (k : Z) :
  0 < k ->
  firstn (Z.to_nat k) (x :: rest) = x :: firstn (Z.to_nat (k - 1)) rest.
Proof.
  intros Hk. replace (Z.to_nat k) with (Datatypes.S (Z.to_nat (k - 1))) by lia.
  reflexivity.
Qed.

(** Closes one turn of the loop from what is known of the turns after
    it. *)
(** The loop started with [found] below the bound connects to the next
    providers up to the bound, keeps the caller's state, and collects only
    promises that resolve; it fails only if the routing fails before the
    bound is reached. *)
Lemma loop_run {S} (maxp : Z) (n : t) (failure : option Error) :
  forall (stream : list PeerInfo) (found : Z)
         (attempts : list (Async.Result (option Connection))) (s : S),
    found < maxp ->
    Forall settled attempts ->
    let out := findAndConnect_loop maxp n stream failure found attempts s in
    Async.state out = s /\
    connects (Async.trace out) =
      List.map id (firstn (Z.to_nat (maxp - found)) stream) /\
    match Async.result out with
    | Async.Resolved attempts' => Forall settled attempts'
    | Async.Rejected e =>
        failure = Some e /\ Z.of_nat (List.length stream) < maxp - found
    end.
Proof.
  induction stream as [|provider rest IH]; intros found attempts s Hlt Hatt out.
  - subst out. cbn [findAndConnect_loop]. rewrite firstn_nil.
    destruct failure as [e|]; cbn; repeat split; auto. lia.
  - rewrite firstn_step by lia.
    replace (maxp - found - 1) with (maxp - (found + 1)) by lia.
    set (continue := fun attempt : Async.Result (option Connection) =>
           if found + 1 =? maxp
           then @Async.ret S _ (attempts ++ [attempt])%list
           else findAndConnect_loop maxp n rest failure (found + 1)
                  (attempts ++ [attempt])%list).
    assert (Hcont : forall attempt, settled attempt ->
              Async.state (continue attempt s) = s /\
              connects (Async.trace (continue attempt s)) =
                List.map id (firstn (Z.to_nat (maxp - (found + 1))) rest) /\
              match Async.result (continue attempt s) with
              | Async.Resolved attempts' => Forall settled attempts'
              | Async.Rejected e =>
                  failure = Some e /\
                  Z.of_nat (List.length (provider :: rest)) < maxp - found
              end).
    { intros attempt Hs. unfold continue.
      assert (Hall : Forall settled (attempts ++ [attempt]))
        by (apply Forall_app; split; auto).
      destruct (Z.eqb_spec (found + 1) maxp) as [Heq|Hne].
      - replace (maxp - (found + 1)) with 0 by lia.
        cbn. repeat split; auto.
      - assert (Hlt' : found + 1 < maxp) by lia.
        destruct (IH (found + 1) (attempts ++ [attempt])%list s Hlt' Hall)
          as (H1 & H2 & H3).
        repeat split; auto.
        destruct (Async.result _); auto.
        destruct H3 as [H3 H4]. split; auto.
        cbn [List.length]. lia. }
    assert (Hstep : exists attempt tr0,
              settled attempt /\ connects tr0 = [id provider] /\
              out = (Async.result (continue attempt s),
                     Async.state (continue attempt s),
                     (tr0 ++ Async.trace (continue attempt s))%list)).
    { subst out. cbn [findAndConnect_loop]. fold continue.
      unfold Async.bind, Async.emit, Async.settle, Async.ret.
      rewrite connectTo_run.
      destruct (_running n);
        [destruct (dial (_libp2p n) (id provider)) as [conn|e]|].
      - exists (Async.Resolved (Some conn)).
        exists [LogInfo "connecting to provider"; NetConnectTo (id provider);
                Libp2pDial (id provider)].
        split; [eexists; reflexivity|]. split; cycle 1.
        + destruct (continue (Async.Resolved (Some conn)) s) as [[r s'] tr].
          reflexivity.
        + reflexivity.
      - exists (Async.Resolved None).
        exists [LogInfo "connecting to provider"; NetConnectTo (id provider);
                Libp2pDial (id provider); LogError "" e].
        split; [eexists; reflexivity|]. split; cycle 1.
        + destruct (continue (Async.Resolved None) s) as [[r s'] tr].
          reflexivity.
        + reflexivity.
      - exists (Async.Resolved None).
        exists [LogInfo "connecting to provider"; NetConnectTo (id provider);
                LogError "" NetworkNotRunning].
        split; [eexists; reflexivity|]. split; cycle 1.
        + destruct (continue (Async.Resolved None) s) as [[r s'] tr].
          reflexivity.
        + reflexivity. }
    destruct Hstep as (attempt & tr0 & Ha & Hc & ->).
    destruct (Hcont attempt Ha) as (H1 & H2 & H3).
    cbn [Async.state Async.trace Async.result fst snd].
    rewrite connects_app, Hc, H2. auto.
Qed.

(** C4. With a positive bound, [findAndConnect] calls [connectTo] for the
    first providers of the stream, at most [maxProvidersPerRequest] of
    them, and leaves its caller's state alone.  Whatever the dials do, it
    resolves when the routing does not fail: it rejects only with an error
    of the provider stream itself. *)
Theorem findAndConnect_bounded {S} (maxProvidersPerRequest : Z) (n : t)
        (cid : Cids.CID) (s : S) :
  1 <= maxProvidersPerRequest ->
  let out := findAndConnect_at maxProvidersPerRequest n cid s in
  connects (Async.trace out) =
    List.map id (firstn (Z.to_nat maxProvidersPerRequest)
                   (providers (findProviders n cid))) /\
  Z.of_nat (List.length (connects (Async.trace out))) <= maxProvidersPerRequest /\
  Async.state out = s /\
  (failure (findProviders n cid) = None ->
   Async.result out = Async.Resolved tt) /\
  (forall e, Async.result out = Async.Rejected e ->
             failure (findProviders n cid) = Some e).
Proof.
  intros Hmax out.
  assert (Hlt : 0 < maxProvidersPerRequest) by lia.
  pose proof (loop_run maxProvidersPerRequest n (failure (findProviders n cid))
                (providers (findProviders n cid)) 0 [] s Hlt (Forall_nil _))
    as Hloop.
  cbv zeta in Hloop. rewrite Z.sub_0_r in Hloop.
  subst out. unfold findAndConnect_at, Async.bind, Async.emit, Async.lift, Async.ret.
  destruct (findAndConnect_loop _ _ _ _ _ _ s) as [[r s'] tr].
  cbn [Async.state Async.trace Async.result fst snd] in Hloop.
  destruct Hloop as (Hs & Hc & Hr). subst s'.
  assert (Hlen : Z.of_nat (List.length
                   (List.map id (firstn (Z.to_nat maxProvidersPerRequest)
                                   (providers (findProviders n cid)))))
                 <= maxProvidersPerRequest).
  { rewrite length_map.
    pose proof (firstn_le_length (Z.to_nat maxProvidersPerRequest)
                  (providers (findProviders n cid))). lia. }
  destruct r as [attempts|e].
  - destruct (AsyncFacts.all_resolved attempts Hr) as [v ->].
    cbn [Async.state Async.trace Async.result fst snd app connects flat_map].
    fold (connects (tr ++ [])). rewrite app_nil_r, Hc.
    repeat split; auto. intros e He. discriminate.
  - destruct Hr as [Hf _].
    cbn [Async.state Async.trace Async.result fst snd app connects flat_map].
    fold (connects tr). rewrite Hc.
    repeat split; auto.
    + intros Hnone. congruence.
    + intros e' [= <-]. exact Hf.
Qed.

(** Every dial fails and twelve providers are found: the first ten are
    tried and the call resolves. *)
Lemma findAndConnect_bounded_witness :
  1 <= CONSTANTS.maxProvidersPerRequest /\
  Z.of_nat (List.length
    (connects (Async.trace
       (findAndConnect
          (Samples.started (Samples.dead_libp2p Samples.twelve_providers))
          Samples.cid_v0 tt)))) <= 10 /\
  Async.result
    (findAndConnect
       (Samples.started (Samples.dead_libp2p Samples.twelve_providers))
       Samples.cid_v0 tt) = Async.Resolved tt.
Proof.
  assert (H : 1 <= CONSTANTS.maxProvidersPerRequest)
    by (unfold CONSTANTS.maxProvidersPerRequest; lia).
  split; [exact H|].
  pose proof (findAndConnect_bounded CONSTANTS.maxProvidersPerRequest
                (Samples.started (Samples.dead_libp2p Samples.twelve_providers))
                Samples.cid_v0 tt H) as (_ & Hle & _ & Hok & _).
  split; [exact Hle|]. apply Hok. reflexivity.
Defined.

End FindAndConnectFacts.

(* ================================================================== *)
(** * Part III: further properties of the code                         *)
(* ================================================================== *)

(** ** Entries: [equals] and the default priority *)
Module EntryMoreFacts.
Import WantListEntry.

Lemma bytes_eqb_eq a : forall b, Cids.bytes_eqb a b = true <-> a = b.
Proof.
  induction a as [|x a IH]; intros [|y b]; simpl;
    try (split; [discriminate|congruence]); try tauto.
  rewrite andb_true_iff, IH. split.
  - intros [Hxy ->]. f_equal. now apply Byte.byte_dec_bl.
  - intros [= -> ->]. split; auto. now apply Byte.byte_dec_lb.
Qed.

Lemma cid_equals_eq a b : Cids.equals a b = true <-> a = b.
Proof.
  unfold Cids.equals. rewrite !andb_true_iff, !N.eqb_eq, bytes_eqb_eq.
  destruct a, b; simpl. split.
  - intros [[-> ->] ->]. reflexivity.
  - intros [= -> -> ->]. auto.
Qed.

Lemma wantType_eqb_eq a b : wantType_eqb a b = true <-> a = b.
Proof.
  destruct a as [[]|], b as [[]|]; simpl; split;
    congruence || discriminate || auto.
Qed.

(** X7. [equals] holds exactly of two entries with the same CID, the same
    priority, the same want type and the same reference counter; so an
    entry stops being equal to what it was as soon as it is taken or
    released once more. *)
Theorem equals_is_equality_with_counter (a b : t) :
  (equals a b = true <-> a = b) /\
  equals a (inc a) = false /\
  (1 <= _refCounter a -> equals a (dec a) = false).
Proof.
  assert (Heq : forall x y, equals x y = true <-> x = y).
  { intros x y. unfold equals.
    rewrite !andb_true_iff, !Z.eqb_eq, cid_equals_eq, wantType_eqb_eq.
    destruct x, y; simpl. split.
    - intros [[[-> ->] ->] ->]. reflexivity.
    - intros [= -> -> -> ->]. auto. }
  split; [apply Heq|]. split.
  - destruct (equals a (inc a)) eqn:E; auto.
    apply Heq in E. apply (f_equal _refCounter) in E. simpl in E. lia.
  - intros H1. destruct (equals a (dec a)) eqn:E; auto.
    apply Heq in E. apply (f_equal _refCounter) in E. simpl in E. lia.
Qed.

Lemma equals_is_equality_with_counter_witness :
  1 <= _refCounter (constructor Samples.cid_v0 2 None) /\
  equals (constructor Samples.cid_v0 2 None)
         (constructor Samples.cid_v0 2 None) = true /\
  equals (constructor Samples.cid_v0 2 None)
         (dec (constructor Samples.cid_v0 2 None)) = false.
Proof.
  assert (H : 1 <= _refCounter (constructor Samples.cid_v0 2 None))
    by (intro Hgt; discriminate Hgt).
  split; [exact H|].
  destruct (equals_is_equality_with_counter
              (constructor Samples.cid_v0 2 None)
              (constructor Samples.cid_v0 2 None)) as (Hiff & _ & Hdec).
  split; [apply Hiff; reflexivity | exact (Hdec H)].
Defined.

End EntryMoreFacts.

(** ** The wantlist: invariant, order, balance of references *)
Module WantlistMoreFacts.
Import Wantlist WantlistInv WantlistRuns JsMapFacts.

Lemma get_app_absent {V} k (v : V) base :
  JsMap.get k base = None -> JsMap.get k (base ++ [(k, v)]) = Some v.
Proof.
  induction base as [|[k' v'] rest IH]; simpl.
  - now rewrite String.eqb_refl.
  - destruct (String.eqb k k'); [discriminate|auto].
Qed.

Lemma modify_app_absent {V} k f (v : V) base :
  JsMap.get k base = None ->
  JsMap.modify k f (base ++ [(k, v)]) = (base ++ [(k, f v)])%list.
Proof.
  induction base as [|[k' v'] rest IH]; simpl.
  - now rewrite String.eqb_refl.
  - destruct (String.eqb k k'); [discriminate|].
    intros H. now rewrite IH.
Qed.

Lemma delete_app_absent {V} k (v : V) base :
  JsMap.get k base = None -> JsMap.delete k (base ++ [(k, v)]) = base.
Proof.
  induction base as [|[k' v'] rest IH]; simpl.
  - now rewrite String.eqb_refl.
  - destruct (String.eqb k k'); [discriminate|].
    intros H. now rewrite IH.
Qed.

Lemma In_get {V} k (v : V) m :
  NoDup (JsMap.keys m) -> In (k, v) m -> JsMap.get k m = Some v.
Proof.
  induction m as [|[k' v'] rest IH]; simpl; [tauto|].
  intros Hnd [Heq|Hin].
  - injection Heq as -> ->. now rewrite String.eqb_refl.
  - inversion Hnd as [|? ? Hk Hrest]; subst.
    destruct (String.eqb_spec k k') as [->|Hne]; auto.
    exfalso. apply Hk. apply (in_map fst) in Hin. exact Hin.
Qed.

Lemma get_perm {V} k (m1 m2 : JsMap.Map V) :
  NoDup (JsMap.keys m1) -> Permutation m1 m2 ->
  JsMap.get k m1 = JsMap.get k m2.
Proof.
  intros Hnd Hp.
  assert (Hnd2 : NoDup (JsMap.keys m2)).
  { eapply Permutation_NoDup; [|exact Hnd]. now apply Permutation_map. }
  destruct (JsMap.get k m1) as [v|] eqn:E.
  - symmetry. apply In_get; auto.
    eapply Permutation_in; [exact Hp|]. now apply get_Some_In.
  - symmetry. apply get_None_not_key. apply get_None_not_key in E.
    intros Hin. apply E.
    eapply Permutation_in; [|exact Hin].
    apply Permutation_map, Permutation_sym, Hp.
Qed.

(** X1. Whatever sequence of [add], [remove] and [removeForce] is applied
    to a new wantlist, its keys stay distinct, every entry is stored under
    the string of its own CID, and every entry it holds has a positive
    reference counter: an entry whose counter reaches 0 is never left in
    the wantlist. *)
Theorem wantlist_calls_keep_invariant (calls : list call) :
  NoDup (JsMap.keys (set (run calls))) /\
  (forall k e,
     JsMap.get k (set (run calls)) = Some e ->
     k = Cids.toBaseEncodedString (Entry.cid e) /\
     1 <= Entry._refCounter e /\
     Entry.hasRefs e = true) /\
  (forall cid, contains (run calls) cid = true <->
               exists e, In (Cids.toBaseEncodedString cid, e)
                            (entries (run calls))).
Proof.
  destruct (WantlistInvFacts.inv_fold calls _ WantlistInvFacts.inv_constructor)
    as (Hnd & Hk & Hc).
  fold (run calls) in Hnd, Hk, Hc.
  split; [exact Hnd|]. split.
  - intros k e Hget. apply get_Some_In in Hget.
    rewrite Forall_forall in Hk, Hc.
    specialize (Hk _ Hget). specialize (Hc _ Hget).
    unfold keyedP, countedP in *. simpl in *.
    repeat split; auto. apply Z.ltb_lt. lia.
  - intros cid. unfold contains, entries, JsMap.entries. split.
    + destruct (JsMap.get _ _) as [e|] eqn:E; [|discriminate].
      intros _. exists e. now apply get_Some_In.
    + intros [e He]. now rewrite (In_get _ _ _ Hnd He).
Qed.

(** After two [add]s and one [remove] of the same CID the entry is still
    there, under its own key, with one reference. *)
Lemma wantlist_calls_keep_invariant_witness :
  JsMap.get (Cids.toBaseEncodedString Samples.cid_v0)
    (set (run [Add Samples.cid_v0 1; Add Samples.cid_v0 3;
               Remove Samples.cid_v0])) =
    Some (Entry.mk 1 Samples.cid_v0 3 None) /\
  Entry.hasRefs (Entry.mk 1 Samples.cid_v0 3 None) = true /\
  contains (run [Add Samples.cid_v0 1; Add Samples.cid_v0 3;
                 Remove Samples.cid_v0]) Samples.cid_v0 = true.
Proof.
  assert (H : JsMap.get (Cids.toBaseEncodedString Samples.cid_v0)
                (set (run [Add Samples.cid_v0 1; Add Samples.cid_v0 3;
                           Remove Samples.cid_v0])) =
              Some (Entry.mk 1 Samples.cid_v0 3 None))
    by (vm_compute; reflexivity).
  split; [exact H|].
  destruct (wantlist_calls_keep_invariant
              [Add Samples.cid_v0 1; Add Samples.cid_v0 3;
               Remove Samples.cid_v0]) as (_ & Hinv & Hcont).
  split.
  - exact (proj2 (proj2 (Hinv _ _ H))).
  - apply Hcont. exists (Entry.mk 1 Samples.cid_v0 3 None).
    vm_compute. left. reflexivity.
Defined.

(** X2. [removeForce] deletes the entry of the key whatever its reference
    counter, touches no other key, and leaves a wantlist without the key
    as it is. *)
Theorem removeForce_deletes_whatever_the_count (wl : t) (cidStr : string) :
  JsMap.get cidStr (set (removeForce wl cidStr)) = None /\
  (forall k, k <> cidStr ->
     JsMap.get k (set (removeForce wl cidStr)) = JsMap.get k (set wl)) /\
  (JsMap.get cidStr (set wl) = None -> removeForce wl cidStr = wl).
Proof.
  unfold removeForce, JsMap.has.
  destruct (JsMap.get cidStr (set wl)) as [e|] eqn:E; cbn [set].
  - split; [apply get_delete_same|]. split; [|discriminate].
    intros k Hk. apply get_delete_other. congruence.
  - repeat split; auto.
Qed.

Lemma removeForce_deletes_whatever_the_count_witness :
  JsMap.get (Cids.toBaseEncodedString Samples.cid_v0)
    (set Samples.wl_twice) = Some (Entry.mk 2 Samples.cid_v0 3 None) /\
  contains (removeForce Samples.wl_twice
              (Cids.toBaseEncodedString Samples.cid_v0)) Samples.cid_v0 = false /\
  JsMap.get (Cids.toBaseEncodedString Samples.cid_v1)
    (set (removeForce Samples.wl_twice
            (Cids.toBaseEncodedString Samples.cid_v0))) = None /\
  removeForce Samples.wl_once (Cids.toBaseEncodedString Samples.cid_v1) =
    Samples.wl_once.
Proof.
  split; [vm_compute; reflexivity|].
  destruct (removeForce_deletes_whatever_the_count Samples.wl_twice
              (Cids.toBaseEncodedString Samples.cid_v0)) as (Hgone & Hother & _).
  destruct (removeForce_deletes_whatever_the_count Samples.wl_once
              (Cids.toBaseEncodedString Samples.cid_v1)) as (_ & _ & Hnoop).
  split; [|split].
  - unfold contains. now rewrite Hgone.
  - rewrite Hother; [vm_compute; reflexivity|].
    intro Heq. vm_compute in Heq. discriminate Heq.
  - apply Hnoop. vm_compute. reflexivity.
Defined.

End WantlistMoreFacts.

(** ** The wantlist: balance of [add] and [remove], order, size *)
Module WantlistBalanceFacts.
Import Wantlist WantlistInv WantlistRuns JsMapFacts WantlistMoreFacts.

Lemma eta (wl : t) : wl = {| set := set wl |}.
Proof. now destruct wl. Qed.

Lemma contains_false_get wl cid :
  contains wl cid = false ->
  JsMap.get (Cids.toBaseEncodedString cid) (set wl) = None.
Proof.
  unfold contains. destruct (JsMap.get _ _); [discriminate|auto].
Qed.

Lemma add_n_S wl cid p n :
  add_n (S n) wl cid p = add (add_n n wl cid p) cid p.
Proof. reflexivity. Qed.

Lemma remove_n_S wl cid n :
  remove_n (S n) wl cid = remove (remove_n n wl cid) cid.
Proof. reflexivity. Qed.

(** After [n + 1] calls of [add] for a CID that was not wanted, its entry
    is the last one and counts [n + 1] references. *)
Lemma add_n_shape wl cid p n :
  contains wl cid = false ->
  set (add_n (S n) wl cid p) =
  (set wl ++
   [(Cids.toBaseEncodedString cid,
     Entry.mk (Z.of_nat (S n)) cid
       (match n with O => Entry.or_one p | S _ => p end) None)])%list.
Proof.
  intros Habs. apply contains_false_get in Habs.
  induction n as [|n IH].
  - rewrite add_n_S. change (add_n 0 wl cid p) with wl.
    unfold add. rewrite Habs. cbn [set].
    now rewrite (keys_set_absent _ _ _ Habs).
  - rewrite add_n_S. unfold add. rewrite IH.
    rewrite (get_app_absent _ _ _ Habs). cbn [set].
    rewrite (modify_app_absent _ _ _ _ Habs).
    unfold Entry.set_priority, Entry.inc. cbn [Entry._refCounter Entry.cid
      Entry.priority Entry.wantType].
    do 4 f_equal. lia.
Qed.

(** One [remove] on a wantlist whose last entry is the CID's. *)
Lemma remove_last base cid r q w :
  JsMap.get (Cids.toBaseEncodedString cid) base = None ->
  1 <= r ->
  remove {| set := (base ++ [(Cids.toBaseEncodedString cid,
                              Entry.mk r cid q w)])%list |} cid =
  if r =? 1 then {| set := base |}
  else {| set := (base ++ [(Cids.toBaseEncodedString cid,
                            Entry.mk (r - 1) cid q w)])%list |}.
Proof.
  intros Habs Hr. unfold remove. cbn [set].
  rewrite (get_app_absent _ _ _ Habs).
  rewrite (modify_app_absent _ _ _ _ Habs).
  unfold Entry.hasRefs, Entry.dec.
  cbn [Entry._refCounter Entry.cid Entry.priority Entry.wantType].
  replace (Z.max 0 (r - 1)) with (r - 1) by lia.
  destruct (Z.eqb_spec r 1) as [->|Hne].
  - cbn. now rewrite (delete_app_absent _ _ _ Habs).
  - destruct (Z.ltb_spec 0 (r - 1)); [reflexivity|lia].
Qed.

Lemma remove_n_absent wl cid m :
  contains wl cid = false -> remove_n m wl cid = wl.
Proof.
  intros Habs. induction m as [|m IH]; [reflexivity|].
  rewrite remove_n_S, IH.
  apply WantlistFacts.remove_absent. now apply contains_false_get.
Qed.

Lemma remove_n_shape base cid q w n : forall m,
  JsMap.get (Cids.toBaseEncodedString cid) base = None ->
  (1 <= n)%nat -> (m <= n)%nat ->
  remove_n m {| set := (base ++ [(Cids.toBaseEncodedString cid,
                                  Entry.mk (Z.of_nat n) cid q w)])%list |} cid =
  if (m =? n)%nat then {| set := base |}
  else {| set := (base ++ [(Cids.toBaseEncodedString cid,
                            Entry.mk (Z.of_nat (n - m)) cid q w)])%list |}.
Proof.
  intros m Habs Hn. induction m as [|m IH]; intros Hle.
  - destruct (Nat.eqb_spec 0 n) as [<-|_]; [lia|].
    now rewrite Nat.sub_0_r.
  - rewrite remove_n_S, IH by lia.
    destruct (Nat.eqb_spec m n) as [->|Hne]; [lia|].
    rewrite remove_last by (auto; lia).
    destruct (Nat.eqb_spec (S m) n) as [<-|Hne'].
    + replace (Z.of_nat (S m - m) =? 1) with true; [reflexivity|].
      symmetry. apply Z.eqb_eq. lia.
    + replace (Z.of_nat (n - m) =? 1) with false.
      * do 5 f_equal. lia.
      * symmetry. apply Z.eqb_neq. lia.
Qed.

Lemma remove_n_add wl cid a b :
  remove_n (a + b) wl cid = remove_n a (remove_n b wl cid) cid.
Proof. unfold remove_n. apply Nat.iter_add. Qed.

(** X3. References balance.  For a CID that is not wanted, [n] calls of
    [add] followed by at least as many calls of [remove] give back the
    wantlist as it was; after fewer calls of [remove] the CID is still
    wanted, with the difference as its counter. *)
Theorem adds_and_removes_balance
        (wl : t) (cid : Cids.CID) (p : Z) (n m : nat) :
  contains wl cid = false ->
  ((n <= m)%nat -> remove_n m (add_n n wl cid p) cid = wl) /\
  ((m < n)%nat ->
   exists e,
     JsMap.get (Cids.toBaseEncodedString cid)
       (set (remove_n m (add_n n wl cid p) cid)) = Some e /\
     Entry._refCounter e = Z.of_nat (n - m) /\
     contains (remove_n m (add_n n wl cid p) cid) cid = true).
Proof.
  intros Habs. pose proof (contains_false_get _ _ Habs) as Hget.
  destruct n as [|n].
  - split; [|lia]. intros _. now apply remove_n_absent.
  - pose proof (add_n_shape wl cid p n Habs) as Hshape.
    rewrite (eta (add_n (S n) wl cid p)), Hshape.
    split.
    + intros Hle.
      replace m with ((m - S n) + S n)%nat by lia.
      rewrite remove_n_add.
      rewrite remove_n_shape by (auto; lia).
      rewrite Nat.eqb_refl. rewrite <- (eta wl).
      now apply remove_n_absent.
    + intros Hlt. rewrite remove_n_shape by (auto; lia).
      destruct (Nat.eqb_spec m (S n)) as [->|_]; [lia|].
      eexists. unfold contains. cbn [set].
      rewrite (get_app_absent _ _ _ Hget). repeat split.
Qed.

Lemma adds_and_removes_balance_witness :
  contains Samples.wl_once Samples.cid_v1 = false /\
  remove_n 5 (add_n 3 Samples.wl_once Samples.cid_v1 9) Samples.cid_v1 =
    Samples.wl_once /\
  contains (remove_n 2 (add_n 3 Samples.wl_once Samples.cid_v1 9)
              Samples.cid_v1) Samples.cid_v1 = true.
Proof.
  assert (H : contains Samples.wl_once Samples.cid_v1 = false)
    by (vm_compute; reflexivity).
  split; [exact H|]. split.
  - apply (proj1 (adds_and_removes_balance
                    Samples.wl_once Samples.cid_v1 9 3 5 H)). lia.
  - destruct (proj2 (adds_and_removes_balance
                       Samples.wl_once Samples.cid_v1 9 3 2 H))
      as (e & _ & _ & Hc); [lia|exact Hc].
Defined.

Lemma size_keys {V} (m : JsMap.Map V) :
  JsMap.size m = Z.of_nat (List.length (JsMap.keys m)).
Proof. unfold JsMap.size, JsMap.keys. now rewrite length_map. Qed.

Lemma filter_one_out (k : string) (l : list string) :
  NoDup l -> In k l ->
  S (List.length (filter (fun k' => negb (String.eqb k k')) l)) = List.length l.
Proof.
  induction l as [|x rest IH]; simpl; [tauto|].
  intros Hnd Hin. inversion Hnd as [|? ? Hx Hrest]; subst.
  destruct (String.eqb_spec k x) as [->|Hne]; simpl.
  - f_equal.
    assert (Hall : forall y, In y rest ->
                     negb (String.eqb x y) = true).
    { intros y Hy. destruct (String.eqb_spec x y); [subst; contradiction|auto]. }
    clear -Hall. induction rest as [|y rest IH]; simpl; auto.
    rewrite Hall by now left. simpl. f_equal. apply IH.
    intros z Hz. apply Hall. now right.
  - f_equal. apply IH; auto. destruct Hin; [congruence|auto].
Qed.

(** X4. [add] keeps the order of insertion: a CID that is new goes last
    and the length grows by one; a CID that is already wanted keeps its
    place and the length does not change.  A new entry never has priority
    0 (0 is replaced by 1), whereas adding a wanted CID again with
    priority 0 does set its priority to 0. *)
Theorem add_keeps_order_and_sets_priority (wl : t) (cid : Cids.CID) (p : Z) :
  JsMap.keys (set (add wl cid p)) =
    (if contains wl cid then JsMap.keys (set wl)
     else JsMap.keys (set wl) ++ [Cids.toBaseEncodedString cid])%list /\
  length (add wl cid p) = length wl + (if contains wl cid then 0 else 1) /\
  contains (add wl cid p) cid = true /\
  exists e,
    JsMap.get (Cids.toBaseEncodedString cid) (set (add wl cid p)) = Some e /\
    Entry.priority e =
      (if contains wl cid then p else if p =? 0 then 1 else p) /\
    (contains wl cid = false -> Entry.priority e <> 0).
Proof.
  assert (Hkeys :
    JsMap.keys (set (add wl cid p)) =
      (if contains wl cid then JsMap.keys (set wl)
       else JsMap.keys (set wl) ++ [Cids.toBaseEncodedString cid])%list).
  { unfold add, contains.
    destruct (JsMap.get (Cids.toBaseEncodedString cid) (set wl)) eqn:E;
      cbn [set].
    - apply keys_modify.
    - rewrite (keys_set_absent _ _ _ E). unfold JsMap.keys.
      now rewrite map_app. }
  pose proof (WantlistFacts.add_get_same wl cid p) as Hget.
  split; [exact Hkeys|]. split; [|split].
  - unfold length. rewrite !size_keys, Hkeys.
    destruct (contains wl cid); [lia|].
    rewrite length_app. simpl. lia.
  - unfold contains at 1. now rewrite Hget.
  - eexists. split; [exact Hget|]. unfold contains.
    destruct (JsMap.get (Cids.toBaseEncodedString cid) (set wl)) as [e|].
    + split; [reflexivity|discriminate].
    + cbn. unfold Entry.or_one. split; [reflexivity|].
      intros _. destruct (Z.eqb_spec p 0); lia.
Qed.

Lemma add_keeps_order_and_sets_priority_witness :
  contains Samples.wl_once Samples.cid_v1 = false /\
  exists e,
    JsMap.get (Cids.toBaseEncodedString Samples.cid_v1)
      (set (add Samples.wl_once Samples.cid_v1 0)) = Some e /\
    Entry.priority e <> 0.
Proof.
  assert (H : contains Samples.wl_once Samples.cid_v1 = false)
    by (vm_compute; reflexivity).
  split; [exact H|].
  destruct (add_keeps_order_and_sets_priority
              Samples.wl_once Samples.cid_v1 0) as (_ & _ & _ & e & Hg & _ & Hp).
  exists e. split; [exact Hg | exact (Hp H)].
Defined.

Lemma remove_keys wl cid :
  JsMap.keys (set (remove wl cid)) =
  match JsMap.get (Cids.toBaseEncodedString cid) (set wl) with
  | Some e =>
      if Entry.hasRefs (Entry.dec e) then JsMap.keys (set wl)
      else filter (fun k => negb (String.eqb (Cids.toBaseEncodedString cid) k))
                  (JsMap.keys (set wl))
  | None => JsMap.keys (set wl)
  end.
Proof.
  unfold remove.
  destruct (JsMap.get (Cids.toBaseEncodedString cid) (set wl)) as [e|];
    [|reflexivity].
  destruct (Entry.hasRefs (Entry.dec e)); cbn [set].
  - apply keys_modify.
  - now rewrite WantlistInvFacts.delete_modify, WantlistInvFacts.keys_delete.
Qed.

Lemma remove_contains wl cid :
  contains (remove wl cid) cid =
  match JsMap.get (Cids.toBaseEncodedString cid) (set wl) with
  | Some e => Entry.hasRefs (Entry.dec e)
  | None => false
  end.
Proof.
  unfold contains at 1.
  destruct (JsMap.get (Cids.toBaseEncodedString cid) (set wl)) as [e|] eqn:E.
  - rewrite (WantlistFacts.remove_get_same wl cid e E).
    now destruct (Entry.hasRefs (Entry.dec e)).
  - rewrite (WantlistFacts.remove_absent wl cid E). now rewrite E.
Qed.

(** X5. [remove] drops the key of the CID only, and only when its counter
    is used up; the other keys keep their order.  On a wantlist built by
    the calls of the class, the length goes down by exactly one when the
    last reference is removed and stays the same otherwise; removing a
    CID that is not wanted changes nothing. *)
Theorem remove_keeps_order (calls : list call) (cid : Cids.CID) :
  let wl := run calls in
  let cidStr := Cids.toBaseEncodedString cid in
  JsMap.keys (set (remove wl cid)) =
    (if contains (remove wl cid) cid || negb (contains wl cid)
     then JsMap.keys (set wl)
     else filter (fun k => negb (String.eqb cidStr k)) (JsMap.keys (set wl))) /\
  length (remove wl cid) =
    length wl -
    (if contains wl cid && negb (contains (remove wl cid) cid) then 1 else 0) /\
  (contains wl cid = false -> remove wl cid = wl) /\
  (forall e, JsMap.get cidStr (set wl) = Some e ->
     contains (remove wl cid) cid = negb (Entry._refCounter e =? 1)).
Proof.
  intros wl cidStr.
  destruct (WantlistInvFacts.inv_fold calls _ WantlistInvFacts.inv_constructor)
    as (Hnd & _ & Hc).
  fold (run calls) in Hnd, Hc. fold wl in Hnd, Hc.
  pose proof (remove_keys wl cid) as Hkeys.
  pose proof (remove_contains wl cid) as Hcont.
  fold cidStr in Hkeys, Hcont.
  unfold length. rewrite !size_keys, Hkeys, Hcont.
  unfold contains at 1 2 3. fold cidStr.
  destruct (JsMap.get cidStr (set wl)) as [e|] eqn:E.
  - assert (Hone : 1 <= Entry._refCounter e).
    { apply get_Some_In in E. rewrite Forall_forall in Hc.
      apply (Hc _ E). }
    assert (Hin : In cidStr (JsMap.keys (set wl))).
    { apply get_Some_In in E. apply (in_map fst) in E. exact E. }
    assert (Hdec : Entry.hasRefs (Entry.dec e) =
                   negb (Entry._refCounter e =? 1)).
    { unfold Entry.hasRefs, Entry.dec. cbn.
      destruct (Z.eqb_spec (Entry._refCounter e) 1) as [->|Hne]; [reflexivity|].
      apply Z.ltb_lt. lia. }
    rewrite Hdec.
    destruct (Entry._refCounter e =? 1) eqn:E1; cbn [negb andb orb].
    + split; [reflexivity|]. split; [|split; [discriminate|]].
      * pose proof (filter_one_out cidStr _ Hnd Hin). lia.
      * intros e' [= <-]. now rewrite E1.
    + split; [reflexivity|]. split; [lia|]. split; [discriminate|].
      intros e' [= <-]. now rewrite E1.
  - cbn [negb andb orb]. split; [reflexivity|]. split; [lia|].
    split; [|discriminate].
    intros _. now apply WantlistFacts.remove_absent.
Qed.

Lemma remove_keeps_order_witness :
  contains (run [Add Samples.cid_v0 1]) Samples.cid_v1 = false /\
  remove (run [Add Samples.cid_v0 1]) Samples.cid_v1 =
    run [Add Samples.cid_v0 1] /\
  contains (remove (run [Add Samples.cid_v0 1; Add Samples.cid_v0 3])
              Samples.cid_v0) Samples.cid_v0 = true.
Proof.
  assert (H : contains (run [Add Samples.cid_v0 1]) Samples.cid_v1 = false)
    by (vm_compute; reflexivity).
  split; [exact H|]. split.
  - destruct (remove_keeps_order [Add Samples.cid_v0 1] Samples.cid_v1)
      as (_ & _ & Hnoop & _).
    exact (Hnoop H).
  - destruct (remove_keeps_order [Add Samples.cid_v0 1; Add Samples.cid_v0 3]
                Samples.cid_v0) as (_ & _ & _ & Hcount).
    rewrite (Hcount (Entry.mk 2 Samples.cid_v0 3 None));
      vm_compute; reflexivity.
Defined.

(** X6. The map returned by [sortedEntries] is the same mapping as the
    wantlist's: every key looks up the same entry, the size is the same,
    and sorting what is already sorted changes nothing. *)
Theorem sortedEntries_same_mapping (calls : list call) :
  let wl := run calls in
  (forall k, JsMap.get k (sortedEntries wl) = JsMap.get k (set wl)) /\
  JsMap.size (sortedEntries wl) = length wl /\
  sortedEntries {| set := sortedEntries wl |} = sortedEntries wl.
Proof.
  intros wl.
  pose proof (WantlistInvFacts.run_well_keyed calls) as Hwk. fold wl in Hwk.
  destruct (SortedEntriesFacts.sorted_by_key wl Hwk) as (_ & _ & Hperm).
  pose proof Hwk as Hwk'.
  apply WantlistInvFacts.well_keyed_iff in Hwk' as [Hnd Hk].
  assert (Hnds : NoDup (JsMap.keys (sortedEntries wl))).
  { eapply Permutation_NoDup; [|exact Hnd].
    apply Permutation_map, Permutation_sym, Hperm. }
  split; [|split].
  - intros k. now apply get_perm.
  - unfold length, JsMap.size. f_equal. now apply Permutation_length.
  - apply SortedEntriesFacts.sortedEntries_same_contents; auto.
    apply WantlistInvFacts.well_keyed_iff. split; auto.
    eapply Permutation_Forall; [apply Permutation_sym, Hperm | exact Hk].
Qed.

End WantlistBalanceFacts.

(** ** The network adapter: outbound messages *)
Module NetworkMoreFacts.
Import Network Observe ObserveMore NetworkFacts.

Lemma for_each_emit {S A} (f : A -> Event) (l : list A) (s : S) :
  Async.for_each l (fun x => Async.emit (f x)) s =
  (Async.Resolved tt, s, List.map f l).
Proof.
  induction l as [|x rest IH]; [reflexivity|].
  cbn [Async.for_each List.map]. unfold Async.bind, Async.emit at 1.
  now rewrite IH.
Qed.

Lemma updateSentStats_run {S} (n : t) peer blocks (s : S) :
  exists tr,
    _updateSentStats n peer blocks s = (Async.Resolved tt, s, tr) /\
    stats tr = (if _has_stats n then expected_stats peer blocks else []) /\
    Forall (fun ev => match ev with StatsPush _ _ _ => True | _ => False end) tr.
Proof.
  unfold _updateSentStats. destruct (_has_stats n).
  - unfold Async.bind. rewrite for_each_emit. unfold Async.emit.
    eexists. split; [reflexivity|]. split.
    + unfold stats, expected_stats. rewrite flat_map_app. f_equal.
      induction blocks as [|b rest IH]; [reflexivity|].
      cbn. now rewrite IH.
    + apply Forall_app. split; [|repeat constructor].
      apply Forall_forall. intros ev Hin. apply in_map_iff in Hin as (b & <- & _).
      exact I.
  - eexists. split; [reflexivity|]. split; [reflexivity|constructor].
Qed.

(** The format [writeMessage] picks for the negotiated protocol, if any. *)
Lemma writeMessage_exact {S} (n : t) stream msg (s : S) :
  exists tr,
    writeMessage n stream msg s = (Async.Resolved tt, s, tr) /\
    writes tr =
      (if String.eqb (stat_protocol stream) BITSWAP100
       then [(stream, Bitswap100Format)]
       else if String.eqb (stat_protocol stream) BITSWAP110
               || String.eqb (stat_protocol stream) BITSWAP120
       then [(stream, Bitswap110Format)]
       else []) /\
    closed tr = [stream] /\
    stats tr = [] /\
    offered tr = [] /\
    List.last tr (LogInfo EmptyString) = StreamClose stream.
Proof.
  unfold writeMessage, Async.bind, Async.settle, Async.emit, Async.ret,
    Async.throw, Async.lift.
  destruct (String.eqb (stat_protocol stream) BITSWAP100);
    [|destruct (String.eqb (stat_protocol stream) BITSWAP110
               || String.eqb (stat_protocol stream) BITSWAP120)];
    cbn [app]; try destruct (pipe (_libp2p n) stream);
    cbn [app]; eexists; repeat split.
Qed.

Lemma stats_app tr1 tr2 : stats (tr1 ++ tr2) = (stats tr1 ++ stats tr2)%list.
Proof. apply flat_map_app. Qed.

Lemma writes_app tr1 tr2 : writes (tr1 ++ tr2) = (writes tr1 ++ writes tr2)%list.
Proof. apply flat_map_app. Qed.

Lemma closed_app tr1 tr2 : closed (tr1 ++ tr2) = (closed tr1 ++ closed tr2)%list.
Proof. apply flat_map_app. Qed.

Lemma offered_app tr1 tr2 :
  offered (tr1 ++ tr2) = (offered tr1 ++ offered tr2)%list.
Proof. apply flat_map_app. Qed.

Lemma only_stats tr :
  Forall (fun ev => match ev with StatsPush _ _ _ => True | _ => False end) tr ->
  writes tr = [] /\ closed tr = [] /\ offered tr = [].
Proof.
  induction 1 as [|ev tr Hev _ (IH1 & IH2 & IH3)]; [auto|].
  destruct ev; try contradiction. simpl. auto.
Qed.

(** The run of [sendMessage] once the dial and the stream succeed. *)
Lemma sendMessage_exact {S} (n : t) peer msg (s : S) conn stream :
  _running n = true ->
  dial (_libp2p n) peer = Async.Resolved conn ->
  newStream (_libp2p n) conn [BITSWAP120; BITSWAP110; BITSWAP100] =
    Async.Resolved stream ->
  sendMessage n peer msg s =
    (Async.Resolved tt, s,
     [NetSendMessage peer msg; LogInfo "sendMessage to"; Libp2pDial peer;
      ConnectionNewStream (remotePeer conn)
        [BITSWAP120; BITSWAP110; BITSWAP100]] ++
     Async.trace (writeMessage n stream msg s) ++
     Async.trace (_updateSentStats n peer (BitswapMessage.blocks msg) s))%list.
Proof.
  intros Hrun Hdial Hstream.
  destruct (writeMessage_exact n stream msg s) as (trw & Hw & _).
  destruct (updateSentStats_run n peer (BitswapMessage.blocks msg) s)
    as (tru & Hu & _).
  unfold sendMessage, Async.bind, Async.emit, Async.throw, Async.lift.
  rewrite Hrun, Hdial, Hstream. cbn [negb]. rewrite Hw, Hu. reflexivity.
Qed.

(** X8. Outbound streams are offered all three protocols, newest first,
    whatever the adapter advertises: an adapter built with [b100Only]
    handles /ipfs/bitswap/1.0.0 alone and still offers 1.2.0 and 1.1.0
    when it sends.  The frame is written in the format of the protocol
    the stream negotiated: the 1.0.0 format for 1.0.0, the 1.1.0 format
    for 1.1.0 and 1.2.0, and nothing at all for any other protocol.  The
    stream is closed exactly once. *)
Theorem sendMessage_offers_all_and_writes_negotiated
        {S} (n : t) peer msg (s : S) conn stream :
  _running n = true ->
  dial (_libp2p n) peer = Async.Resolved conn ->
  newStream (_libp2p n) conn [BITSWAP120; BITSWAP110; BITSWAP100] =
    Async.Resolved stream ->
  let tr := Async.trace (sendMessage n peer msg s) in
  offered tr =
    [["/ipfs/bitswap/1.2.0"; "/ipfs/bitswap/1.1.0"; "/ipfs/bitswap/1.0.0"]%string] /\
  writes tr =
    (if String.eqb (stat_protocol stream) "/ipfs/bitswap/1.0.0"
     then [(stream, Bitswap100Format)]
     else if String.eqb (stat_protocol stream) "/ipfs/bitswap/1.1.0"
             || String.eqb (stat_protocol stream) "/ipfs/bitswap/1.2.0"
     then [(stream, Bitswap110Format)]
     else []) /\
  closed tr = [stream].
Proof.
  intros Hrun Hdial Hstream tr. subst tr.
  rewrite (sendMessage_exact n peer msg s conn stream Hrun Hdial Hstream).
  destruct (writeMessage_exact n stream msg s)
    as (trw & -> & Hwr & Hcl & _ & Hof & _).
  destruct (updateSentStats_run n peer (BitswapMessage.blocks msg) s)
    as (tru & -> & _ & Honly).
  destruct (only_stats tru Honly) as (Hw0 & Hc0 & Ho0).
  cbn [Async.trace snd].
  rewrite !offered_app, !writes_app, !closed_app.
  rewrite Hwr, Hcl, Hof, Hw0, Hc0, Ho0.
  repeat split; cbn; now rewrite ?app_nil_r.
Qed.

(** An adapter restricted to the legacy protocol, sending over a stream
    that negotiated 1.2.0: it advertises 1.0.0 only, offers all three and
    writes the 1.1.0 format. *)
Lemma sendMessage_offers_all_and_writes_negotiated_witness :
  _protocols (set_running true
                (constructor (Samples.good_libp2p []) true
                   MoreSamples.legacy_only)) = [BITSWAP100] /\
  offered (Async.trace
    (sendMessage (set_running true
                    (constructor (Samples.good_libp2p []) true
                       MoreSamples.legacy_only))
       Samples.peerB MoreSamples.two_blocks tt)) =
    [[BITSWAP120; BITSWAP110; BITSWAP100]] /\
  writes (Async.trace
    (sendMessage (set_running true
                    (constructor (Samples.good_libp2p []) true
                       MoreSamples.legacy_only))
       Samples.peerB MoreSamples.two_blocks tt)) =
    [(mkStream Samples.peerB BITSWAP120, Bitswap110Format)].
Proof.
  split; [reflexivity|].
  destruct (sendMessage_offers_all_and_writes_negotiated
              (set_running true
                 (constructor (Samples.good_libp2p []) true
                    MoreSamples.legacy_only))
              Samples.peerB MoreSamples.two_blocks tt
              (mkConnection Samples.peerB)
              (mkStream Samples.peerB BITSWAP120)
              eq_refl eq_refl eq_refl) as (Ho & Hw & _).
  split; [exact Ho | exact Hw].
Defined.

(** X9. Once the dial and the stream have succeeded, [sendMessage]
    resolves whatever happens to the write: a failed write, or a protocol
    it cannot serialize for, is logged and swallowed by [writeMessage].
    The statistics are pushed all the same: the length of every block of
    the message as [dataSent], then the number of blocks as [blocksSent];
    nothing is pushed when the adapter has no statistics. *)
Theorem sendMessage_counts_blocks_whatever_the_write
        {S} (n : t) peer msg (s : S) conn stream :
  _running n = true ->
  dial (_libp2p n) peer = Async.Resolved conn ->
  newStream (_libp2p n) conn [BITSWAP120; BITSWAP110; BITSWAP100] =
    Async.Resolved stream ->
  Async.result (sendMessage n peer msg s) = Async.Resolved tt /\
  Async.state (sendMessage n peer msg s) = s /\
  stats (Async.trace (sendMessage n peer msg s)) =
    (if _has_stats n
     then expected_stats peer (BitswapMessage.blocks msg)
     else []).
Proof.
  intros Hrun Hdial Hstream.
  rewrite (sendMessage_exact n peer msg s conn stream Hrun Hdial Hstream).
  destruct (writeMessage_exact n stream msg s)
    as (trw & -> & _ & _ & Hst & _).
  destruct (updateSentStats_run n peer (BitswapMessage.blocks msg) s)
    as (tru & -> & Hstats & _).
  cbn [Async.trace Async.result Async.state fst snd].
  rewrite !stats_app, Hst, Hstats. repeat split.
Qed.

(** The write fails, and the two blocks (of 5 and 6 bytes) are counted
    as sent. *)
Lemma sendMessage_counts_blocks_whatever_the_write_witness :
  Async.result
    (sendMessage (Samples.started (MoreSamples.write_fails BITSWAP110))
       Samples.peerB MoreSamples.two_blocks tt) = Async.Resolved tt /\
  stats (Async.trace
    (sendMessage (Samples.started (MoreSamples.write_fails BITSWAP110))
       Samples.peerB MoreSamples.two_blocks tt)) =
    [(Samples.peerB, "dataSent"%string, 5);
     (Samples.peerB, "dataSent"%string, 6);
     (Samples.peerB, "blocksSent"%string, 2)].
Proof.
  destruct (sendMessage_counts_blocks_whatever_the_write
              (Samples.started (MoreSamples.write_fails BITSWAP110))
              Samples.peerB MoreSamples.two_blocks tt
              (mkConnection Samples.peerB)
              (mkStream Samples.peerB BITSWAP110)
              eq_refl eq_refl eq_refl) as (Hr & _ & Hs).
  split; [exact Hr|]. rewrite Hs. vm_compute. reflexivity.
Defined.

End NetworkMoreFacts.


(** ** The network adapter: [start] and [stop] *)
Module LifecycleFacts.
Import Network Observe ObserveMore NetworkFacts.

Lemma push_all_fields ids : forall n l0,
  _registrarIds n = Some l0 ->
  _registrarIds (push_all ids n) = Some (l0 ++ ids)%list /\
  _running (push_all ids n) = _running n /\
  _protocols (push_all ids n) = _protocols n /\
  _libp2p (push_all ids n) = _libp2p n.
Proof.
  unfold push_all.
  induction ids as [|i ids IH]; intros n l0 H; simpl.
  - rewrite app_nil_r. auto.
  - destruct (IH (push_registrarId i n) (l0 ++ [i])%list) as (H1 & H2 & H3 & H4).
    { unfold push_registrarId. simpl. now rewrite H. }
    rewrite H1, H2, H3, H4, <- app_assoc. auto.
Qed.

Lemma register_loop (libp2p : Libp2p) (ps : list string) :
  forall ids n0,
    registrar_ids libp2p ps = Some ids ->
    Async.for_each ps
      (fun protocol =>
         Async.emit (Libp2pRegister protocol) ;;;
         i <- Async.lift (register libp2p protocol) ;;
         n2 <- Async.get ;;
         Async.put (push_registrarId i n2)) n0 =
    (Async.Resolved tt, push_all ids n0, List.map Libp2pRegister ps).
Proof.
  induction ps as [|p ps IH]; intros ids n0 Hids; simpl in Hids.
  - injection Hids as <-. reflexivity.
  - destruct (register libp2p p) as [i|e] eqn:Hreg; [|discriminate].
    destruct (registrar_ids libp2p ps) as [ids'|] eqn:Hrest; [|discriminate].
    injection Hids as <-.
    cbn [Async.for_each]. unfold Async.bind at 1.
    unfold Async.bind at 1, Async.emit at 1.
    unfold Async.bind at 1, Async.lift at 1. rewrite Hreg.
    unfold Async.bind at 1, Async.get at 1, Async.put at 1.
    rewrite (IH ids' (push_registrarId i n0) eq_refl). reflexivity.
Qed.

(** The run of a [start] on which the transport accepts everything. *)
Lemma start_exact (n : t) (ids : list string) :
  handle (_libp2p n) (_protocols n) = Async.Resolved tt ->
  registrar_ids (_libp2p n) (_protocols n) = Some ids ->
  start n =
  (Async.Resolved tt,
   push_all ids (set_registrarIds (Some []) (set_running true n)),
   Libp2pHandle (_protocols n) (_maxInboundStreams n) (_maxOutboundStreams n)
   :: List.map Libp2pRegister (_protocols n) ++
      List.map (fun conn => BitswapPeerConnected (remotePeer conn))
               (getConnections (_libp2p n)))%list.
Proof.
  intros Hh Hids. unfold start, _onPeerConnect.
  unfold Async.bind at 1, Async.get at 1. cbv beta iota.
  match goal with
  | |- context [Async.for_each (_protocols n) ?b] => set (body := b)
  end.
  match goal with
  | |- context [Async.for_each (getConnections (_libp2p n)) ?b] =>
      set (replay := Async.for_each (getConnections (_libp2p n)) b)
  end.
  assert (Hloop : forall m,
            Async.for_each (_protocols n) body m =
            (Async.Resolved tt, push_all ids m,
             List.map Libp2pRegister (_protocols n))).
  { intros m. subst body. now apply register_loop. }
  assert (Hreplay : forall m,
            replay m =
            (Async.Resolved tt, m,
             List.map (fun conn => BitswapPeerConnected (remotePeer conn))
                      (getConnections (_libp2p n)))).
  { intros m. subst replay.
    apply (NetworkMoreFacts.for_each_emit
             (fun conn => BitswapPeerConnected (remotePeer conn))). }
  unfold Async.bind, Async.get, Async.put, Async.emit, Async.lift.
  rewrite Hh, Hloop, Hreplay. reflexivity.
Qed.

Lemma stop_exact (n : t) :
  stop n =
  match unhandle (_libp2p n) (_protocols n) with
  | Async.Rejected e =>
      (Async.Rejected e, set_running false n, [Libp2pUnhandle (_protocols n)])
  | Async.Resolved _ =>
      match _registrarIds n with
      | Some ids =>
          (Async.Resolved tt,
           set_registrarIds (Some []) (set_running false n),
           Libp2pUnhandle (_protocols n) :: List.map Libp2pUnregister ids)
      | None =>
          (Async.Resolved tt, set_running false n,
           [Libp2pUnhandle (_protocols n)])
      end
  end.
Proof.
  unfold stop.
  unfold Async.bind at 1, Async.get at 1. cbv beta iota.
  destruct (_registrarIds n) as [ids|] eqn:Hids.
  - match goal with
    | |- context [Async.for_each ids ?b] =>
        set (loop := Async.for_each ids b)
    end.
    assert (Hloop : forall m,
              loop m = (Async.Resolved tt, m, List.map Libp2pUnregister ids)).
    { intros m. subst loop. apply (NetworkMoreFacts.for_each_emit Libp2pUnregister). }
    unfold Async.bind, Async.get, Async.put, Async.emit, Async.lift.
    destruct (unhandle (_libp2p n) (_protocols n)) as [[]|e]; [|reflexivity].
    rewrite Hloop. cbn [app]. now rewrite app_nil_r.
  - unfold Async.bind, Async.get, Async.put, Async.emit, Async.lift, Async.ret.
    destruct (unhandle (_libp2p n) (_protocols n)) as [[]|e]; reflexivity.
Qed.

Lemma observers_of_map_register ps :
  registered (List.map Libp2pRegister ps) = ps /\
  handled (List.map Libp2pRegister ps) = [] /\
  peers_connected (List.map Libp2pRegister ps) = [].
Proof.
  unfold registered, handled, peers_connected.
  induction ps as [|p ps (IH1 & IH2 & IH3)]; [auto|].
  cbn [List.map flat_map app]. now rewrite IH1, IH2, IH3.
Qed.

Lemma observers_of_map_connected (conns : list Connection) :
  registered (List.map (fun c => BitswapPeerConnected (remotePeer c)) conns) = [] /\
  handled (List.map (fun c => BitswapPeerConnected (remotePeer c)) conns) = [] /\
  peers_connected (List.map (fun c => BitswapPeerConnected (remotePeer c)) conns) =
    List.map remotePeer conns.
Proof.
  unfold registered, handled, peers_connected.
  induction conns as [|c cs (IH1 & IH2 & IH3)]; [auto|].
  cbn [List.map flat_map app]. now rewrite IH1, IH2, IH3.
Qed.

Lemma handled_app tr1 tr2 : handled (tr1 ++ tr2) = (handled tr1 ++ handled tr2)%list.
Proof. apply flat_map_app. Qed.

Lemma registered_app tr1 tr2 :
  registered (tr1 ++ tr2) = (registered tr1 ++ registered tr2)%list.
Proof. apply flat_map_app. Qed.

Lemma peers_connected_app tr1 tr2 :
  peers_connected (tr1 ++ tr2) =
  (peers_connected tr1 ++ peers_connected tr2)%list.
Proof. apply flat_map_app. Qed.

Lemma unregistered_tail ps ids :
  unregistered (Libp2pUnhandle ps :: List.map Libp2pUnregister ids) = ids.
Proof.
  unfold unregistered. cbn [flat_map app].
  induction ids as [|i ids IH]; [auto|].
  cbn [List.map flat_map app]. now rewrite IH.
Qed.

Lemma unregistered_map ids : unregistered (List.map Libp2pUnregister ids) = ids.
Proof.
  unfold unregistered.
  induction ids as [|i ids IH]; [auto|].
  cbn [List.map flat_map app]. now rewrite IH.
Qed.

(** X10. [stop] always leaves the adapter not running, also when the
    transport fails to unhandle; in that case nothing is unregistered and
    the registrar identifiers are kept.  An adapter that is not running,
    stopped or never started, rejects [connectTo] and [sendMessage] with
    the error that the network is not running, without dialing. *)
Theorem stop_always_stops {S} (n : t) (peer : PeerId)
        (msg : BitswapMessage.t) (s : S) :
  _running (Async.state (stop n)) = false /\
  connectTo (Async.state (stop n)) peer s =
    (Async.Rejected NetworkNotRunning, s, [NetConnectTo peer]) /\
  sendMessage (Async.state (stop n)) peer msg s =
    (Async.Rejected NetworkNotRunning, s, [NetSendMessage peer msg]) /\
  (forall libp2p has_stats options,
     connectTo (constructor libp2p has_stats options) peer s =
       (Async.Rejected NetworkNotRunning, s, [NetConnectTo peer])) /\
  (forall e, unhandle (_libp2p n) (_protocols n) = Async.Rejected e ->
     Async.result (stop n) = Async.Rejected e /\
     unregistered (Async.trace (stop n)) = [] /\
     _registrarIds (Async.state (stop n)) = _registrarIds n).
Proof.
  assert (Hstop : _running (Async.state (stop n)) = false).
  { rewrite stop_exact.
    destruct (unhandle (_libp2p n) (_protocols n));
      [destruct (_registrarIds n)|]; reflexivity. }
  split; [exact Hstop|]. split; [|split; [|split]].
  - rewrite connectTo_run. now rewrite Hstop.
  - unfold sendMessage, Async.bind, Async.emit, Async.throw.
    now rewrite Hstop.
  - intros libp2p has_stats options. now rewrite connectTo_run.
  - intros e He. rewrite stop_exact, He. repeat split.
Qed.

Lemma stop_always_stops_witness :
  unhandle (_libp2p (Samples.started (Samples.dead_libp2p [])))
           (_protocols (Samples.started (Samples.dead_libp2p []))) =
    Async.Resolved tt /\
  _running (Samples.started (Samples.dead_libp2p [])) = true /\
  _running (Async.state (stop (Samples.started (Samples.dead_libp2p [])))) = false.
Proof.
  split; [reflexivity|]. split; [reflexivity|].
  exact (proj1 (stop_always_stops
                  (Samples.started (Samples.dead_libp2p []))
                  Samples.peerB (BitswapMessage.constructor false) tt)).
Defined.

(** X11. [start] and [stop] undo each other on a transport that accepts
    the calls.  [start] handles the advertised protocols, registers a
    topology for each of them in order, keeps the identifiers it gets and
    reports every connection that is already open to the coordinator;
    [stop] then unhandles the same protocols, unregisters exactly the
    identifiers [start] got, in the same order, and leaves the adapter
    not running with no identifier left. *)
Theorem start_then_stop (n : t) (ids : list string) :
  handle (_libp2p n) (_protocols n) = Async.Resolved tt ->
  registrar_ids (_libp2p n) (_protocols n) = Some ids ->
  unhandle (_libp2p n) (_protocols n) = Async.Resolved tt ->
  let n1 := Async.state (start n) in
  Async.result (start n) = Async.Resolved tt /\
  _running n1 = true /\
  _registrarIds n1 = Some ids /\
  handled (Async.trace (start n)) = [_protocols n] /\
  registered (Async.trace (start n)) = _protocols n /\
  peers_connected (Async.trace (start n)) =
    List.map remotePeer (getConnections (_libp2p n)) /\
  Async.result (stop n1) = Async.Resolved tt /\
  unhandled (Async.trace (stop n1)) = [_protocols n] /\
  unregistered (Async.trace (stop n1)) = ids /\
  _running (Async.state (stop n1)) = false /\
  _registrarIds (Async.state (stop n1)) = Some [].
Proof.
  intros Hh Hids Hu n1. subst n1.
  rewrite (start_exact n ids Hh Hids).
  cbn [Async.result Async.state Async.trace fst snd].
  destruct (push_all_fields ids (set_registrarIds (Some []) (set_running true n))
              [] eq_refl) as (Hr & Hrun & Hps & Hlib).
  cbn [app] in Hr. cbn in Hrun, Hps, Hlib.
  destruct (observers_of_map_register (_protocols n)) as (R1 & R2 & R3).
  destruct (observers_of_map_connected (getConnections (_libp2p n)))
    as (C1 & C2 & C3).
  rewrite stop_exact, Hps, Hlib, Hu, Hr.
  cbn [Async.result Async.state Async.trace fst snd].
  match goal with
  | |- context [?ev :: (?a ++ ?b)%list] =>
      change (ev :: (a ++ b)%list) with ([ev] ++ a ++ b)%list
  end.
  rewrite !handled_app, !registered_app, !peers_connected_app.
  rewrite R1, R2, R3, C1, C2, C3, unregistered_tail.
  rewrite !app_nil_r. repeat split; auto.
  unfold unhandled. cbn [flat_map app]. f_equal.
  clear. induction ids as [|i ids IH]; auto.
Qed.

Lemma start_then_stop_witness :
  registered (Async.trace (start (constructor (Samples.good_libp2p []) true
                                    no_options))) =
    [BITSWAP120; BITSWAP110; BITSWAP100] /\
  unregistered (Async.trace
    (stop (Async.state (start (constructor (Samples.good_libp2p []) true
                                 no_options))))) =
    [BITSWAP120; BITSWAP110; BITSWAP100].
Proof.
  destruct (start_then_stop
              (constructor (Samples.good_libp2p []) true no_options)
              [BITSWAP120; BITSWAP110; BITSWAP100]
              eq_refl eq_refl eq_refl)
    as (_ & _ & _ & _ & Hreg & _ & _ & _ & Hunreg & _).
  split; [exact Hreg | exact Hunreg].
Defined.

(** X12. A [start] that fails to handle the protocols rejects with the
    error of the transport and registers nothing, yet it leaves the
    adapter marked as running: [connectTo] then dials instead of
    rejecting. *)
Theorem failed_start_leaves_running {S} (n : t) (e : Error)
        (peer : PeerId) (s : S) :
  handle (_libp2p n) (_protocols n) = Async.Rejected e ->
  Async.result (start n) = Async.Rejected e /\
  registered (Async.trace (start n)) = [] /\
  _registrarIds (Async.state (start n)) = _registrarIds n /\
  _running (Async.state (start n)) = true /\
  dials (Async.trace (connectTo (Async.state (start n)) peer s)) = [peer].
Proof.
  intros Hh.
  assert (Hstart : start n =
            (Async.Rejected e, set_running true n,
             [Libp2pHandle (_protocols n) (_maxInboundStreams n)
                (_maxOutboundStreams n)])).
  { unfold start.
    unfold Async.bind at 1, Async.get at 1. cbv beta iota.
    unfold Async.bind at 1, Async.put at 1. cbv beta iota.
    unfold Async.bind at 1, Async.emit at 1. cbv beta iota.
    unfold Async.bind at 1, Async.lift at 1. cbv beta iota.
    now rewrite Hh. }
  rewrite Hstart. cbn [Async.result Async.state Async.trace fst snd].
  repeat split.
Qed.

Lemma failed_start_leaves_running_witness :
  handle (_libp2p (constructor MoreSamples.handle_fails true no_options))
         (_protocols (constructor MoreSamples.handle_fails true no_options)) =
    Async.Rejected (External "cannot handle") /\
  _running (constructor MoreSamples.handle_fails true no_options) = false /\
  _running (Async.state
              (start (constructor MoreSamples.handle_fails true no_options))) =
    true.
Proof.
  split; [reflexivity|]. split; [reflexivity|].
  destruct (failed_start_leaves_running
              (constructor MoreSamples.handle_fails true no_options)
              (External "cannot handle") Samples.peerB tt eq_refl)
    as (_ & _ & _ & Hrun & _).
  exact Hrun.
Defined.

End LifecycleFacts.

(** ** [findAndConnect] when the routing fails *)
Module FindAndConnectMoreFacts.
Import Network Observe NetworkFacts FindAndConnectFacts.

(** The loop rejects when the routing fails before the bound is reached. *)
Lemma loop_rejects {S} (maxp : Z) (n : t) (e : Error) :
  forall (stream : list PeerInfo) (found : Z)
         (attempts : list (Async.Result (option Connection))) (s : S),
    found < maxp ->
    Z.of_nat (List.length stream) < maxp - found ->
    Async.result
      (findAndConnect_loop maxp n stream (Some e) found attempts s) =
    Async.Rejected e.
Proof.
  induction stream as [|provider rest IH]; intros found attempts s Hlt Hlen.
  - reflexivity.
  - cbn [List.length] in Hlen.
    assert (Hne : (found + 1 =? maxp) = false) by (apply Z.eqb_neq; lia).
    assert (Hnext : forall attempt,
              Async.result
                (findAndConnect_loop maxp n rest (Some e) (found + 1)
                   (attempts ++ [attempt]) s) = Async.Rejected e)
      by (intros attempt; apply IH; lia).
    cbn [findAndConnect_loop].
    unfold Async.bind, Async.emit, Async.settle, Async.ret.
    rewrite connectTo_run, Hne.
    destruct (_running n);
      [destruct (dial (_libp2p n) (id provider)) as [conn|e']|].
    + specialize (Hnext (Async.Resolved (Some conn))).
      destruct (findAndConnect_loop maxp n rest (Some e) (found + 1) _ s)
        as [[r s'] tr]. exact Hnext.
    + specialize (Hnext (Async.Resolved None)).
      destruct (findAndConnect_loop maxp n rest (Some e) (found + 1) _ s)
        as [[r s'] tr]. exact Hnext.
    + specialize (Hnext (Async.Resolved None)).
      destruct (findAndConnect_loop maxp n rest (Some e) (found + 1) _ s)
        as [[r s'] tr]. exact Hnext.
Qed.

(** X13. An error of the provider stream is surfaced by [findAndConnect]
    exactly when it comes before the bound is reached: the call then
    rejects with that error, after having called [connectTo] for every
    provider found so far.  Once [maxProvidersPerRequest] providers have
    been found the stream is left ([break]) and its later failure is never
    seen: the call resolves. *)
Theorem findAndConnect_surfaces_early_routing_errors
        {S} (maxProvidersPerRequest : Z) (n : t) (cid : Cids.CID) (s : S)
        (e : Error) :
  1 <= maxProvidersPerRequest ->
  failure (findProviders n cid) = Some e ->
  let found := providers (findProviders n cid) in
  let out := findAndConnect_at maxProvidersPerRequest n cid s in
  (Z.of_nat (List.length found) < maxProvidersPerRequest ->
   Async.result out = Async.Rejected e /\
   connects (Async.trace out) = List.map id found) /\
  (maxProvidersPerRequest <= Z.of_nat (List.length found) ->
   Async.result out = Async.Resolved tt).
Proof.
  intros Hmax Hfail found out.
  assert (Hlt : 0 < maxProvidersPerRequest) by lia.
  pose proof (loop_run maxProvidersPerRequest n (failure (findProviders n cid))
                found 0 [] s Hlt (Forall_nil _)) as Hloop.
  cbv zeta in Hloop. rewrite Z.sub_0_r in Hloop.
  destruct Hloop as (_ & Hc & Hr).
  split.
  - intros Hshort.
    pose proof (loop_rejects maxProvidersPerRequest n e found 0 [] s Hlt) as Hrej.
    rewrite Z.sub_0_r in Hrej. specialize (Hrej Hshort).
    subst out. unfold findAndConnect_at, Async.bind, Async.emit.
    fold found. rewrite Hfail in *.
    destruct (findAndConnect_loop _ _ _ _ _ _ s) as [[r s'] tr].
    cbn [Async.result Async.trace fst snd] in *. subst r.
    cbn [Async.result Async.trace fst snd app connects flat_map].
    fold (connects tr). split; [reflexivity|].
    rewrite Hc. f_equal. apply firstn_all2. lia.
  - intros Hlong.
    subst out. unfold findAndConnect_at, Async.bind, Async.emit, Async.lift,
      Async.ret.
    fold found.
    destruct (findAndConnect_loop _ _ _ _ _ _ s) as [[r s'] tr].
    cbn [Async.result fst snd] in Hr.
    destruct r as [attempts|e'].
    + destruct (AsyncFacts.all_resolved attempts Hr) as [v ->]. reflexivity.
    + destruct Hr as [_ Hr]. lia.
Qed.

(** The routing fails after two providers, and after twelve. *)
Lemma findAndConnect_surfaces_early_routing_errors_witness :
  Async.result
    (findAndConnect_at 10
       (Samples.started (MoreSamples.routing_fails
                           (firstn 2 Samples.twelve_providers)))
       Samples.cid_v0 tt) = Async.Rejected (External "routing failed") /\
  Async.result
    (findAndConnect_at 10
       (Samples.started (MoreSamples.routing_fails Samples.twelve_providers))
       Samples.cid_v0 tt) = Async.Resolved tt.
Proof.
  split.
  - apply (proj1 (findAndConnect_surfaces_early_routing_errors 10
             (Samples.started (MoreSamples.routing_fails
                                 (firstn 2 Samples.twelve_providers)))
             Samples.cid_v0 tt (External "routing failed")
             ltac:(lia) eq_refl)).
    vm_compute. reflexivity.
  - apply (proj2 (findAndConnect_surfaces_early_routing_errors 10
             (Samples.started (MoreSamples.routing_fails
                                 Samples.twelve_providers))
             Samples.cid_v0 tt (External "routing failed")
             ltac:(lia) eq_refl)).
    vm_compute. discriminate.
Defined.

End FindAndConnectMoreFacts.

(** ** The message queue: debounce, dials and logged errors *)
Module MsgQueueMoreFacts.
Import MsgQueue Observe ObserveMore NetworkFacts.

Lemma logged_errors_app tr1 tr2 :
  logged_errors (tr1 ++ tr2) = (logged_errors tr1 ++ logged_errors tr2)%list.
Proof. apply flat_map_app. Qed.

Lemma dials_app tr1 tr2 : dials (tr1 ++ tr2) = (dials tr1 ++ dials tr2)%list.
Proof. apply flat_map_app. Qed.

Lemma only_stats_quiet tr :
  Forall (fun ev => match ev with StatsPush _ _ _ => True | _ => False end) tr ->
  logged_errors tr = [] /\ dials tr = [].
Proof.
  induction 1 as [|ev tr Hev _ (IH1 & IH2)]; [auto|].
  destruct ev; try contradiction. simpl. auto.
Qed.

Lemma writeMessage_quiet {S} (n : Network.t) stream msg (s : S) :
  logged_errors (Async.trace (Network.writeMessage n stream msg s)) = [] /\
  dials (Async.trace (Network.writeMessage n stream msg s)) = [].
Proof.
  unfold Network.writeMessage, Async.bind, Async.settle, Async.emit,
    Async.ret, Async.throw, Async.lift.
  destruct (String.eqb (stat_protocol stream) Network.BITSWAP100);
    [|destruct (String.eqb (stat_protocol stream) Network.BITSWAP110
               || String.eqb (stat_protocol stream) Network.BITSWAP120)];
    cbn [app]; try destruct (Network.pipe (Network._libp2p n) stream);
    cbn [app]; split; reflexivity.
Qed.

(** What [sendMessage] logs with [log.error] (nothing), and its dials. *)
Lemma sendMessage_quiet {S} (n : Network.t) peer msg (s : S) :
  logged_errors (Async.trace (Network.sendMessage n peer msg s)) = [] /\
  dials (Async.trace (Network.sendMessage n peer msg s)) =
    (if Network._running n then [peer] else []).
Proof.
  destruct (Network._running n) eqn:Hrun.
  - destruct (Network.dial (Network._libp2p n) peer) as [conn|e] eqn:Hdial.
    + destruct (Network.newStream (Network._libp2p n) conn
                  [Network.BITSWAP120; Network.BITSWAP110; Network.BITSWAP100])
        as [stream|e] eqn:Hstream.
      * rewrite (NetworkMoreFacts.sendMessage_exact n peer msg s conn stream
                   Hrun Hdial Hstream).
        destruct (writeMessage_quiet n stream msg s) as [Hw1 Hw2].
        destruct (NetworkMoreFacts.updateSentStats_run n peer
                    (BitswapMessage.blocks msg) s) as (tru & -> & _ & Honly).
        destruct (only_stats_quiet tru Honly) as [Hu1 Hu2].
        cbn [Async.trace snd].
        rewrite !logged_errors_app, !dials_app, Hw1, Hw2, Hu1, Hu2.
        split; reflexivity.
      * unfold Network.sendMessage, Async.bind, Async.emit, Async.throw,
          Async.lift.
        rewrite Hrun, Hdial, Hstream. split; reflexivity.
    + unfold Network.sendMessage, Async.bind, Async.emit, Async.throw,
        Async.lift.
      rewrite Hrun, Hdial. split; reflexivity.
  - unfold Network.sendMessage, Async.bind, Async.emit, Async.throw.
    rewrite Hrun. split; reflexivity.
Qed.

(** X14. Every failure in [send] is logged once and goes no further: a
    failed connect is logged as such and nothing else happens; a failure
    of [sendMessage] after a successful connect is logged as a send
    error.  A [send] that gets through dials the peer twice, once for
    [connectTo] and once more inside [sendMessage]. *)
Theorem send_logs_each_failure_once
        (network : Network.t) (msg : BitswapMessage.t) (q : t) :
  let tr := Async.trace (send network msg q) in
  match Async.result (Network.connectTo network (peerId q) q) with
  | Async.Rejected e =>
      logged_errors tr = [("cant connect to peer"%string, e)] /\
      dials tr = (if Network._running network then [peerId q] else [])
  | Async.Resolved _ =>
      dials tr = [peerId q; peerId q] /\
      match Async.result (Network.sendMessage network (peerId q) msg q) with
      | Async.Rejected e => logged_errors tr = [("send error"%string, e)]
      | Async.Resolved _ => logged_errors tr = []
      end
  end.
Proof.
  intros tr. subst tr.
  destruct (sendMessage_quiet network (peerId q) msg q) as [Hl Hd].
  unfold send, Async.bind, Async.get, Async.settle.
  rewrite !connectTo_run.
  destruct (Network._running network) eqn:Hrun.
  - destruct (Network.dial (Network._libp2p network) (peerId q)) as [conn|e].
    + unfold Async.emit, Async.ret.
      destruct (Network.sendMessage network (peerId q) msg q)
        as [[[[]|e] s'] trs];
        cbn [Async.result Async.trace fst snd] in *.
      * change (dials ([NetConnectTo (peerId q); Libp2pDial (peerId q);
                        LogInfo "sending message to peer"] ++ trs ++ []) =
                [peerId q; peerId q] /\
                logged_errors ([NetConnectTo (peerId q); Libp2pDial (peerId q);
                        LogInfo "sending message to peer"] ++ trs ++ []) = []).
        rewrite !dials_app, !logged_errors_app, Hl, Hd. split; reflexivity.
      * change (dials ([NetConnectTo (peerId q); Libp2pDial (peerId q);
                        LogInfo "sending message to peer"] ++ trs ++
                       [LogError "send error" e]) =
                [peerId q; peerId q] /\
                logged_errors ([NetConnectTo (peerId q); Libp2pDial (peerId q);
                        LogInfo "sending message to peer"] ++ trs ++
                       [LogError "send error" e]) =
                [("send error"%string, e)]).
        rewrite !dials_app, !logged_errors_app, Hl, Hd. split; reflexivity.
    + split; reflexivity.
  - split; reflexivity.
Qed.

Lemma send_logs_each_failure_once_witness :
  dials (Async.trace
    (send (Samples.started (Samples.good_libp2p []))
          (built [Samples.want_v0]) Samples.queueB)) =
    [Samples.peerB; Samples.peerB] /\
  logged_errors (Async.trace
    (send (Samples.started (MoreSamples.write_fails EmptyString))
          (built [Samples.want_v0]) Samples.queueB)) = [] /\
  logged_errors (Async.trace
    (send (Samples.started (Samples.dead_libp2p []))
          (built [Samples.want_v0]) Samples.queueB)) =
    [("cant connect to peer"%string, External "dial failed")].
Proof.
  split; [|split].
  - exact (proj1 (send_logs_each_failure_once
             (Samples.started (Samples.good_libp2p []))
             (built [Samples.want_v0]) Samples.queueB)).
  - exact (proj2 (send_logs_each_failure_once
             (Samples.started (MoreSamples.write_fails EmptyString))
             (built [Samples.want_v0]) Samples.queueB)).
  - exact (proj1 (send_logs_each_failure_once
             (Samples.started (Samples.dead_libp2p []))
             (built [Samples.want_v0]) Samples.queueB)).
Defined.

(** X15. Debouncing coalesces.  [addEntries] sends nothing by itself: it
    appends to the pending list and arms the timer.  When the timer fires
    after two calls, one message built from everything pending, in order,
    is handed to [send], the pending list is emptied and the timer is
    disarmed; a further firing, or a further [sendEntries], does nothing. *)
Theorem addEntries_coalesce
        (network : Network.t) (q : t) (a b : list PendingEntry) :
  let q1 := Async.state (addEntries a q) in
  let q2 := Async.state (addEntries b q1) in
  let q3 := Async.state (debounce_fire network q2) in
  Async.trace (addEntries a q) = [] /\
  Async.trace (addEntries b q1) = [] /\
  _entries q2 = (_entries q ++ a ++ b)%list /\
  debounce_armed q2 = true /\
  debounce_fire network q2 =
    match (_entries q ++ a ++ b)%list with
    | [] => (Async.Resolved tt, set_armed false q2, [])
    | _ :: _ =>
        send network (built (_entries q ++ a ++ b))
          (set_entries [] (set_armed false q2))
    end /\
  sent_messages (Async.trace (debounce_fire network q2)) =
    match (_entries q ++ a ++ b)%list with
    | [] => []
    | _ :: _ =>
        match Async.result (Network.connectTo network (peerId q) q) with
        | Async.Resolved _ => [(peerId q, built (_entries q ++ a ++ b))]
        | Async.Rejected _ => []
        end
    end /\
  _entries q3 = [] /\
  debounce_armed q3 = false /\
  debounce_fire network q3 = (Async.Resolved tt, q3, []) /\
  sendEntries network q3 = (Async.Resolved tt, q3, []).
Proof.
  intros q1 q2 q3.
  assert (Hq2 : q2 = set_armed true (set_entries (_entries q ++ a ++ b) q)).
  { subst q2 q1. cbn. unfold set_armed, set_entries. cbn.
    now rewrite <- app_assoc. }
  assert (Hfire :
    debounce_fire network q2 =
    match (_entries q ++ a ++ b)%list with
    | [] => (Async.Resolved tt, set_armed false q2, [])
    | _ :: _ =>
        send network (built (_entries q ++ a ++ b))
          (set_entries [] (set_armed false q2))
    end).
  { unfold debounce_fire, Async.bind, Async.get, Async.put.
    rewrite Hq2. cbn [debounce_armed set_armed].
    rewrite MsgQueueFacts.sendEntries_run.
    cbn [_entries set_armed set_entries].
    destruct (_entries q ++ a ++ b)%list as [|e rest]; [reflexivity|].
    now destruct (send network (built (e :: rest)) _) as [[r s'] tr]. }
  assert (Hq3 : _entries q3 = [] /\ debounce_armed q3 = false).
  { subst q3. rewrite Hfire.
    destruct (_entries q ++ a ++ b)%list as [|e rest] eqn:E.
    - rewrite Hq2. cbn. auto.
    - destruct (MsgQueueFacts.send_run network (built (e :: rest))
                  (set_entries [] (set_armed false q2))) as (tr & -> & _).
      cbn. auto. }
  destruct Hq3 as [Hq3e Hq3a].
  repeat split; auto.
  - now rewrite Hq2.
  - rewrite Hfire.
    destruct (_entries q ++ a ++ b)%list as [|e rest]; [reflexivity|].
    destruct (MsgQueueFacts.send_run network (built (e :: rest))
                (set_entries [] (set_armed false q2))) as (tr & -> & _ & Hs).
    cbn [Async.trace snd]. rewrite Hs. rewrite Hq2.
    cbn [peerId set_entries set_armed].
    rewrite !connectTo_run.
    destruct (Network._running network); reflexivity.
  - unfold debounce_fire, Async.bind, Async.get. now rewrite Hq3a.
  - rewrite MsgQueueFacts.sendEntries_run. now rewrite Hq3e.
Qed.

End MsgQueueMoreFacts.

(** ** The network adapter: incoming streams *)
Module InboundFacts.
Import Inbound.

Lemma read_frames_spec (c : Collaborators) (peer : PeerId)
      (failure : option Error) :
  forall source,
    let tr := fst (read_frames c peer source failure) in
    let thrown := snd (read_frames c peer source failure) in
    delivered tr =
      decoded c peer
        (good_prefix c peer source ++
         match first_bad c peer source with Some d => [d] | None => [] end) /\
    reported tr =
      match first_bad c peer source with
      | Some d => error_of c peer d
      | None => []
      end /\
    resets tr = List.length (good_prefix c peer source) /\
    thrown =
      match first_bad c peer source with
      | Some _ => None
      | None => failure
      end /\
    aborts tr = [] /\ closes tr = O.
Proof.
  induction source as [|data rest IH]; [cbn; auto 10|].
  cbn [read_frames good_prefix first_bad]. unfold handled_ok.
  cbv zeta in IH.
  destruct (deserialize c data) as [message|err] eqn:Hd.
  - destruct (_receiveMessage c peer message) as [[]|err] eqn:Hr.
    + destruct (read_frames c peer rest failure) as [tr thrown].
      cbn [fst snd] in IH |- *.
      destruct IH as (H1 & H2 & H3 & H4 & H5 & H6).
      cbn [app]. unfold decoded in *. cbn [flat_map]. rewrite Hd.
      unfold delivered, reported, resets, aborts, closes in *.
      cbn [flat_map filter app List.length].
      rewrite H1, H2, H3, H4, H5, H6. auto 10.
    + cbn. unfold decoded, error_of. cbn. rewrite Hd, Hr. auto 10.
  - cbn. unfold decoded, error_of. cbn. rewrite Hd. auto 10.
Qed.

Lemma good_frames_decode (c : Collaborators) (peer : PeerId) :
  forall source,
    List.length (decoded c peer (good_prefix c peer source)) =
    List.length (good_prefix c peer source).
Proof.
  induction source as [|data rest IH]; [reflexivity|].
  cbn [good_prefix]. unfold handled_ok.
  destruct (deserialize c data) as [message|err] eqn:Hd; [|reflexivity].
  destruct (_receiveMessage c peer message); [|reflexivity].
  unfold decoded in *. cbn [flat_map]. rewrite Hd. cbn. now rewrite IH.
Qed.

(** X16. The handler of an incoming stream does nothing at all when the
    adapter is not running: the stream is neither read nor closed.  When
    it is running, the frames are handed to the coordinator in the order
    of the stream, and the idle timer is reset after each frame that was
    handled.  The first frame that does not decode, or whose handling
    fails, is reported to the coordinator and ends the reading: no later
    frame is delivered and nothing else is reported.  The stream is
    aborted only when the source itself fails after frames that were all
    handled; in every case the timer is cleared and the stream closed,
    once, at the very end. *)
Theorem onConnection_reads_until_first_failure
        (n : Network.t) (c : Collaborators) (info : IncomingStreamData) :
  let peer := remotePeer (connection info) in
  let tr := _onConnection n c info in
  (Network._running n = false -> tr = []) /\
  (Network._running n = true ->
   delivered tr =
     decoded c peer
       (good_prefix c peer (frames info) ++
        match first_bad c peer (frames info) with
        | Some d => [d]
        | None => []
        end) /\
   reported tr =
     match first_bad c peer (frames info) with
     | Some d => error_of c peer d
     | None => []
     end /\
   (List.length (reported tr) <= 1)%nat /\
   resets tr = List.length (good_prefix c peer (frames info)) /\
   aborts tr =
     match first_bad c peer (frames info), source_failure info with
     | None, Some err => [err]
     | _, _ => []
     end /\
   closes tr = 1%nat /\
   exists front, tr = (front ++ [ControllerClear; InStreamClose])%list).
Proof.
  intros peer tr. subst tr. unfold _onConnection. fold peer.
  split; intros Hrun; rewrite Hrun; cbn [negb]; [reflexivity|].
  pose proof (read_frames_spec c peer (source_failure info) (frames info))
    as Hspec.
  cbv zeta in Hspec.
  destruct (read_frames c peer (frames info) (source_failure info))
    as [tr thrown].
  cbn [fst snd] in Hspec.
  destruct Hspec as (H1 & H2 & H3 & H4 & H5 & H6).
  assert (Happ : forall (f : InEvent -> bool) a b,
            List.length (filter f (a ++ b)) =
            (List.length (filter f a) + List.length (filter f b))%nat).
  { intros f a b. now rewrite filter_app, length_app. }
  unfold delivered, reported, resets, aborts, closes in *.
  cbn [flat_map filter app List.length].
  rewrite !flat_map_app, !Happ, H1, H2, H3, H5, H6, H4.
  assert (Hlen : (List.length
                    match first_bad c peer (frames info) with
                    | Some d => error_of c peer d
                    | None => []
                    end <= 1)%nat).
  { destruct (first_bad c peer (frames info)) as [d|]; [|cbn; lia].
    unfold error_of. destruct (deserialize c d) as [m|e]; [|cbn; lia].
    destruct (_receiveMessage c peer m); cbn; lia. }
  destruct (first_bad c peer (frames info)) as [d|];
    [|destruct (source_failure info) as [err|]];
    cbn [flat_map filter app List.length]; rewrite ?app_nil_r;
    repeat split; auto; try lia.
  - exists (InLog (stream_protocol info) peer :: tr). reflexivity.
  - exists (InLog (stream_protocol info) peer ::
            tr ++ [InLogValue err; InStreamAbort err])%list.
    cbn [app]. now rewrite <- app_assoc.
  - exists (InLog (stream_protocol info) peer :: tr). reflexivity.
Qed.

(** Four frames, of which the third does not decode: two messages are
    delivered, one error is reported, the fourth frame is never looked
    at and the stream is closed without being aborted, although its
    source would fail at the end. *)
Lemma onConnection_reads_until_first_failure_witness :
  _onConnection (Network.constructor (Samples.good_libp2p []) true
                   Network.no_options)
    MoreSamples.collaborators
    (MoreSamples.incoming [[Byte.x01]] None) = [] /\
  delivered
    (_onConnection (Samples.started (Samples.good_libp2p []))
       MoreSamples.collaborators
       (MoreSamples.incoming
          [[Byte.x01]; [Byte.x01]; [Byte.x03]; [Byte.x01]]
          (Some (External "timeout")))) =
    [(Samples.peerB, BitswapMessage.constructor false);
     (Samples.peerB, BitswapMessage.constructor false)] /\
  reported
    (_onConnection (Samples.started (Samples.good_libp2p []))
       MoreSamples.collaborators
       (MoreSamples.incoming
          [[Byte.x01]; [Byte.x01]; [Byte.x03]; [Byte.x01]]
          (Some (External "timeout")))) = [External "malformed"] /\
  aborts
    (_onConnection (Samples.started (Samples.good_libp2p []))
       MoreSamples.collaborators
       (MoreSamples.incoming
          [[Byte.x01]; [Byte.x01]; [Byte.x03]; [Byte.x01]]
          (Some (External "timeout")))) = [].
Proof.
  split.
  - apply (proj1 (onConnection_reads_until_first_failure
                    (Network.constructor (Samples.good_libp2p []) true
                       Network.no_options)
                    MoreSamples.collaborators
                    (MoreSamples.incoming [[Byte.x01]] None))).
    reflexivity.
  - destruct (proj2 (onConnection_reads_until_first_failure
                       (Samples.started (Samples.good_libp2p []))
                       MoreSamples.collaborators
                       (MoreSamples.incoming
                          [[Byte.x01]; [Byte.x01]; [Byte.x03]; [Byte.x01]]
                          (Some (External "timeout")))) eq_refl)
      as (Hd & Hr & _ & _ & Ha & _).
    split; [exact Hd|]. split; [exact Hr | exact Ha].
Defined.

End InboundFacts.
